(** * bracket.build: the pick codec of the playoff bracket (lib/url-encoding)

    A shallow embedding of [getWinnerCode], [getAllMatchupsOrdered],
    [encodeBracketPicks], [decodeBracketPicks] and
    [applyPicksToFreshBracket], together with the platform functions they
    call ([btoa], [atob], the 32-bit integer operators of JavaScript), and
    the properties of the codec stated in the design document. *)

From Stdlib Require Import Ascii String DecimalString DecimalZ.
From Stdlib Require Import ZArith List Bool Lia.
Import ListNotations.
Local Open Scope Z_scope.

(** ** Results of JavaScript code that may throw *)

Inductive JsError : Type :=
| TypeError               (* property read on null or undefined *)
| InvalidCharacterError.  (* the DOMException of btoa and atob *)

Inductive Res (A : Type) : Type :=
| Ok (a : A)
| Throw (e : JsError).
Arguments Ok {A} a.
Arguments Throw {A} e.

Definition bind {A B : Type} (r : Res A) (k : A -> Res B) : Res B :=
  match r with
  | Ok a => k a
  | Throw e => Throw e
  end.

Notation "x <- r ;; k" := (bind r (fun x => k))
  (at level 61, r at next level, right associativity).

(** [o.f] where [o] may be null or undefined. *)
Definition deref {A B : Type} (o : option A) (f : A -> B) : Res B :=
  match o with
  | Some a => Ok (f a)
  | None => Throw TypeError
  end.

(** [xs.map(f)] for an [f] that may throw. *)
Fixpoint mapM {A B : Type} (f : A -> Res B) (xs : list A) : Res (list B) :=
  match xs with
  | [] => Ok []
  | x :: rest => y <- f x ;; ys <- mapM f rest ;; Ok (y :: ys)
  end.

(** ** 32-bit integers of JavaScript *)

(** ToInt32: the signed 32-bit value congruent to [z]. *)
Definition toInt32 (z : Z) : Z := (z + 2 ^ 31) mod 2 ^ 32 - 2 ^ 31.

(** A number read from an array: reading past the end gives [undefined],
    which the bitwise operators turn into 0. *)
Definition jsInt32 (v : option Z) : Z :=
  match v with
  | Some z => toInt32 z
  | None => 0
  end.

(** [a << n], [a >> n], [a | b], [a & b]. *)
Definition shl32 (a n : Z) : Z := toInt32 (Z.shiftl (toInt32 a) (Z.land n 31)).
Definition sar32 (a n : Z) : Z := Z.shiftr (toInt32 a) (Z.land n 31).
Definition or32 (a b : Z) : Z := Z.lor (toInt32 a) (toInt32 b).
Definition and32 (a b : Z) : Z := Z.land (toInt32 a) (toInt32 b).

(** A store into a [Uint8Array]. *)
Definition toUint8 (z : Z) : Z := z mod 256.

(** ** Data model (types/index) *)

(** Modelled from the spec: the type declarations of [types/index] are
    missing.  The records have the fields that the sources read (of a
    team [id], [name], [city]; of a matchup [id], [homeTeam], [awayTeam],
    [winner]; of a conference [wildCard], [divisional], [championship];
    of a bracket [afc], [nfc], [superBowl], [userName], [name],
    [isComplete]) and those of the data model of the design document
    (conference and seed of a team). *)
Inductive Conference : Type := AFC | NFC.

Record Team : Type := mkTeam {
  teamId : string;          (* [id] *)
  teamName : string;        (* [name] *)
  teamCity : string;        (* [city] *)
  conference : Conference;
  seed : Z
}.

(** A field that is [null] or [undefined] is [None].  [matchupId] is the
    [id] of the matchup; it is [None] for an object built by spreading an
    absent matchup. *)
Record Matchup : Type := mkMatchup {
  matchupId : option string;
  homeTeam : option Team;
  awayTeam : option Team;
  winner : option Team
}.

Record ConferenceBracket : Type := mkConferenceBracket {
  wildCard : list Matchup;
  divisional : list Matchup;
  championship : option Matchup
}.

Record BracketState : Type := mkBracketState {
  afc : ConferenceBracket;
  nfc : ConferenceBracket;
  superBowl : option Matchup;
  userName : string;
  name : string;
  isComplete : bool
}.

(** ** Winner codes *)

(** [t.id === u.id] behind the guard [u &&]. *)
Definition sameTeamId (t : Team) (u : option Team) : bool :=
  match u with
  | Some u' => String.eqb (teamId t) (teamId u')
  | None => false
  end.

Definition getWinnerCode (matchup : option Matchup) : Res Z :=
  match matchup with
  | None => Ok 0
  | Some m =>
      match winner m with
      | None => Ok 0
      | Some w =>
          if sameTeamId w (homeTeam m) then Ok 1
          else if sameTeamId w (awayTeam m) then Ok 2
          else Ok 0
      end
  end.

(** [arr[i]]: [undefined] past the end. *)
Definition at_ {A : Type} (arr : list A) (i : nat) : option A := nth_error arr i.

Definition getAllMatchupsOrdered (bracket : BracketState) : list (option Matchup) :=
  [ at_ (wildCard (afc bracket)) 0;
    at_ (wildCard (afc bracket)) 1;
    at_ (wildCard (afc bracket)) 2;
    at_ (wildCard (nfc bracket)) 0;
    at_ (wildCard (nfc bracket)) 1;
    at_ (wildCard (nfc bracket)) 2;
    at_ (divisional (afc bracket)) 0;
    at_ (divisional (afc bracket)) 1;
    at_ (divisional (nfc bracket)) 0;
    at_ (divisional (nfc bracket)) 1;
    championship (afc bracket);
    championship (nfc bracket);
    superBowl bracket ].

(** ** Packing *)

(** The loop [for (i = 0; i < codes.length; i++) packed |= codes[i] << (i * 2)],
    entered at index [i] with the codes that remain. *)
Fixpoint packLoop (codes : list Z) (i : Z) (packed : Z) : Z :=
  match codes with
  | [] => packed
  | c :: rest => packLoop rest (i + 1) (or32 packed (shl32 c (i * 2)))
  end.

Definition packCodes (codes : list Z) : Z := packLoop codes 0 0.

(** The four stores into [new Uint8Array(4)]. *)
Definition packedBytes (packed : Z) : list Z :=
  [ toUint8 (and32 (sar32 packed 0) 255);
    toUint8 (and32 (sar32 packed 8) 255);
    toUint8 (and32 (sar32 packed 16) 255);
    toUint8 (and32 (sar32 packed 24) 255) ].

(** ** Base64 of the platform *)

Definition base64Alphabet : list ascii :=
  list_ascii_of_string
    "ABCDEFGHIJKLMNOPQRSTUVWXYZabcdefghijklmnopqrstuvwxyz0123456789+/".

Definition padChar : ascii := "="%char.

Definition b64char (sextet : Z) : ascii :=
  nth (Z.to_nat sextet) base64Alphabet "A"%char.

Fixpoint indexOf (c : ascii) (l : list ascii) (i : Z) : option Z :=
  match l with
  | [] => None
  | x :: rest => if Ascii.eqb x c then Some i else indexOf c rest (i + 1)
  end.

Definition b64val (c : ascii) : option Z := indexOf c base64Alphabet 0.

(** RFC 4648 section 4, with padding, over the char codes of a binary
    string. *)
Fixpoint base64 (bs : list Z) : list ascii :=
  match bs with
  | [] => []
  | [a] => [b64char (a / 4); b64char (a mod 4 * 16); padChar; padChar]
  | [a; b] =>
      [b64char (a / 4); b64char (a mod 4 * 16 + b / 16);
       b64char (b mod 16 * 4); padChar]
  | a :: b :: c :: rest =>
      b64char (a / 4) :: b64char (a mod 4 * 16 + b / 16)
        :: b64char (b mod 16 * 4 + c / 64) :: b64char (c mod 64)
        :: base64 rest
  end.

(** [btoa]: throws when a code unit of the argument exceeds 0xFF. *)
Definition btoa (bin : list Z) : Res (list ascii) :=
  if forallb (fun c => (0 <=? c) && (c <=? 255)) bin
  then Ok (base64 bin)
  else Throw InvalidCharacterError.

(** ASCII whitespace: TAB, LF, FF, CR, SPACE. *)
Definition isAsciiWhitespace (c : ascii) : bool :=
  let n := nat_of_ascii c in
  Nat.eqb n 9 || Nat.eqb n 10 || Nat.eqb n 12 || Nat.eqb n 13 || Nat.eqb n 32.

(** Removes one trailing [=] if there is one. *)
Definition dropPad (s : list ascii) : list ascii :=
  match rev s with
  | c :: r => if Ascii.eqb c padChar then rev r else s
  | [] => s
  end.

Fixpoint sextets (s : list ascii) : option (list Z) :=
  match s with
  | [] => Some []
  | c :: rest =>
      match b64val c, sextets rest with
      | Some v, Some vs => Some (v :: vs)
      | _, _ => None
      end
  end.

(** Groups of four sextets give three bytes; a last group of two gives
    one byte and a last group of three gives two. *)
Fixpoint sextetBytes (l : list Z) : list Z :=
  match l with
  | a :: b :: c :: d :: rest =>
      let n := ((a * 64 + b) * 64 + c) * 64 + d in
      n / 65536 :: (n / 256) mod 256 :: n mod 256 :: sextetBytes rest
  | [a; b; c] =>
      let n := ((a * 64 + b) * 64 + c) / 4 in
      [n / 256; n mod 256]
  | [a; b] => [(a * 64 + b) / 16]
  | _ => []
  end.

(** [atob]: the forgiving-base64 decode of the HTML standard; the result
    is the list of char codes of the binary string. *)
Definition atob (data : list ascii) : Res (list Z) :=
  let d1 := filter (fun c => negb (isAsciiWhitespace c)) data in
  let d2 := if (Z.of_nat (length d1) mod 4 =? 0) then dropPad (dropPad d1) else d1 in
  if Z.of_nat (length d2) mod 4 =? 1 then Throw InvalidCharacterError
  else match sextets d2 with
       | None => Throw InvalidCharacterError
       | Some vs => Ok (sextetBytes vs)
       end.

(** ** Encoding *)

(** [s.replace(/x/g, y)] for single characters. *)
Definition subChar (x y c : ascii) : ascii := if Ascii.eqb c x then y else c.

Definition replaceAll (x y : ascii) (s : list ascii) : list ascii :=
  map (subChar x y) s.

(** [s.replace(/=+$/, "")]. *)
Fixpoint dropWhile {A : Type} (p : A -> bool) (l : list A) : list A :=
  match l with
  | [] => []
  | x :: rest => if p x then dropWhile p rest else l
  end.

Definition stripPadding (s : list ascii) : list ascii :=
  rev (dropWhile (fun c => Ascii.eqb c padChar) (rev s)).

Definition toBase64Url (s : list ascii) : list ascii :=
  stripPadding (replaceAll "/" "_" (replaceAll "+" "-" s)).

Definition winnerCodes (bracket : BracketState) : Res (list Z) :=
  mapM getWinnerCode (getAllMatchupsOrdered bracket).

Definition encodeBracketPicks (bracket : BracketState) : Res (list ascii) :=
  codes <- winnerCodes bracket ;;
  let packed := packCodes codes in
  let bytes := packedBytes packed in
  b64 <- btoa bytes ;;
  Ok (toBase64Url b64).

(** ** Decoding *)

(** [while (base64.length % 4) base64 += "="]: at most three rounds. *)
Definition restorePadding (s : list ascii) : list ascii :=
  s ++ repeat padChar (Z.to_nat ((4 - Z.of_nat (length s) mod 4) mod 4)).

Definition fromBase64Url (s : list ascii) : list ascii :=
  restorePadding (replaceAll "_" "/" (replaceAll "-" "+" s)).

(** [bytes[0] | (bytes[1] << 8) | (bytes[2] << 16) | (bytes[3] << 24)]. *)
Definition unpackBytes (bytes : list Z) : Z :=
  or32 (or32 (or32 (jsInt32 (at_ bytes 0))
                   (shl32 (jsInt32 (at_ bytes 1)) 8))
             (shl32 (jsInt32 (at_ bytes 2)) 16))
       (shl32 (jsInt32 (at_ bytes 3)) 24).

(** The loop [for (i = 0; i < 13; i++) codes.push((packed >> (i * 2)) & 0x03)],
    with [n] rounds left from index [i]. *)
Fixpoint extractCodes (packed : Z) (i : Z) (n : nat) : list Z :=
  match n with
  | O => []
  | S n' => and32 (sar32 packed (i * 2)) 3 :: extractCodes packed (i + 1) n'
  end.

Definition decodeBracketPicks (encoded : list ascii) : Res (list Z) :=
  binary <- atob (fromBase64Url encoded) ;;
  let bytes := map toUint8 binary in
  let packed := unpackBytes bytes in
  Ok (extractCodes packed 0 13).

(** ** The playoff rules used by the codec (lib/playoff-rules) *)

Record Pairing : Type := mkPairing {
  home : option Team;
  away : option Team
}.

Record DivisionalPairings : Type := mkDivisionalPairings {
  matchup1 : Pairing;
  matchup2 : Pairing
}.

(** The four functions that the codec imports from [./playoff-rules],
    a module that is not among the sources: the codec is stated over any
    such four functions. *)
Record PlayoffRules : Type := mkPlayoffRules {
  createInitialBracket : string -> BracketState;
  calculateDivisionalMatchups : Conference -> list (option Team) -> DivisionalPairings;
  calculateChampionshipMatchup : list (option Team) -> Pairing;
  isBracketComplete : BracketState -> bool
}.

(** ** Applying codes to a fresh bracket *)

(** [code === k]; a code read past the end of [codes] is [undefined]. *)
Definition codeIs (code : option Z) (k : Z) : bool :=
  match code with
  | Some c => c =? k
  | None => false
  end.

(** [{ ...matchup, winner }]. *)
Definition withWinner (m : Matchup) (w : option Team) : Matchup :=
  mkMatchup (matchupId m) (homeTeam m) (awayTeam m) w.

(** [{ ...matchup, homeTeam: h, awayTeam: a }]; spreading an absent
    matchup gives an object with these two fields only. *)
Definition withTeams (matchup : option Matchup) (h a : option Team) : Matchup :=
  match matchup with
  | Some m => mkMatchup (matchupId m) h a (winner m)
  | None => mkMatchup None h a None
  end.

(** The helper [applyCode] on a matchup object. *)
Definition applyCodeTo (matchup : Matchup) (code : option Z) : Matchup :=
  if codeIs code 0 then matchup
  else
    let w := if codeIs code 1 then homeTeam matchup else awayTeam matchup in
    withWinner matchup w.

(** The helper [applyCode] on [arr[i]], which may be [undefined]: code 0
    returns it as it is, any other code reads a team slot of it. *)
Definition applyCode (matchup : option Matchup) (code : option Z) : Res (option Matchup) :=
  if codeIs code 0 then Ok matchup
  else
    w <- (if codeIs code 1 then deref matchup homeTeam else deref matchup awayTeam) ;;
    m <- deref matchup (fun m => m) ;;
    Ok (Some (withWinner m w)).

(** The entries of an array that are not [undefined]. *)
Definition defined {A : Type} (arr : list (option A)) : list A :=
  flat_map (fun o => match o with Some a => [a] | None => [] end) arr.

Definition applyPicksToFreshBracket (rules : PlayoffRules)
    (codes : list Z) (userName' : string) : Res BracketState :=
  let bracket := createInitialBracket rules userName' in
  (* wild card picks *)
  a0 <- applyCode (at_ (wildCard (afc bracket)) 0) (at_ codes 0) ;;
  a1 <- applyCode (at_ (wildCard (afc bracket)) 1) (at_ codes 1) ;;
  a2 <- applyCode (at_ (wildCard (afc bracket)) 2) (at_ codes 2) ;;
  n0 <- applyCode (at_ (wildCard (nfc bracket)) 0) (at_ codes 3) ;;
  n1 <- applyCode (at_ (wildCard (nfc bracket)) 1) (at_ codes 4) ;;
  n2 <- applyCode (at_ (wildCard (nfc bracket)) 2) (at_ codes 5) ;;
  afcWcWinners <- mapM (fun m => deref m winner) [a0; a1; a2] ;;
  nfcWcWinners <- mapM (fun m => deref m winner) [n0; n1; n2] ;;
  (* AFC divisional: teams, then picks *)
  let afcDiv := calculateDivisionalMatchups rules AFC afcWcWinners in
  let ad0 := withTeams (at_ (divisional (afc bracket)) 0)
               (home (matchup1 afcDiv)) (away (matchup1 afcDiv)) in
  let ad1 := withTeams (at_ (divisional (afc bracket)) 1)
               (home (matchup2 afcDiv)) (away (matchup2 afcDiv)) in
  let afcDivisional := [applyCodeTo ad0 (at_ codes 6); applyCodeTo ad1 (at_ codes 7)] in
  (* NFC divisional: teams, then picks *)
  let nfcDiv := calculateDivisionalMatchups rules NFC nfcWcWinners in
  let nd0 := withTeams (at_ (divisional (nfc bracket)) 0)
               (home (matchup1 nfcDiv)) (away (matchup1 nfcDiv)) in
  let nd1 := withTeams (at_ (divisional (nfc bracket)) 1)
               (home (matchup2 nfcDiv)) (away (matchup2 nfcDiv)) in
  let nfcDivisional := [applyCodeTo nd0 (at_ codes 8); applyCodeTo nd1 (at_ codes 9)] in
  (* AFC championship *)
  let afcDivWinners := map winner afcDivisional in
  let afcChamp := calculateChampionshipMatchup rules afcDivWinners in
  let afcChampionship :=
    applyCodeTo (withTeams (championship (afc bracket)) (home afcChamp) (away afcChamp))
      (at_ codes 10) in
  (* NFC championship *)
  let nfcDivWinners := map winner nfcDivisional in
  let nfcChamp := calculateChampionshipMatchup rules nfcDivWinners in
  let nfcChampionship :=
    applyCodeTo (withTeams (championship (nfc bracket)) (home nfcChamp) (away nfcChamp))
      (at_ codes 11) in
  (* Super Bowl *)
  let afcChampWinner := winner afcChampionship in
  let nfcChampWinner := winner nfcChampionship in
  let superBowl' :=
    applyCodeTo (withTeams (superBowl bracket) afcChampWinner nfcChampWinner)
      (at_ codes 12) in
  (* completion status *)
  let applied :=
    mkBracketState
      (mkConferenceBracket (defined [a0; a1; a2]) afcDivisional (Some afcChampionship))
      (mkConferenceBracket (defined [n0; n1; n2]) nfcDivisional (Some nfcChampionship))
      (Some superBowl')
      (userName bracket) (name bracket) (isComplete bracket) in
  Ok (mkBracketState (afc applied) (nfc applied) (superBowl applied)
        (userName applied) (name applied)
        (isBracketComplete rules applied)).

(** ** A model of lib/playoff-rules *)

Local Open Scope string_scope.

Definition conferenceKey (c : Conference) : string :=
  match c with AFC => "afc" | NFC => "nfc" end.

Definition digit (n : Z) : string :=
  String (ascii_of_nat (48 + Z.to_nat n)) EmptyString.

(** Modelled from the spec: the seeding table of lib/playoff-rules is
    missing.  A team is identified by its conference and seed (1 to 7);
    names and cities are placeholders. *)
Definition seededTeam (c : Conference) (s : Z) : Team :=
  mkTeam (conferenceKey c ++ "-" ++ digit s) ("Seed " ++ digit s) "" c s.

(** Modelled from the spec: a wild-card matchup of the seeding table,
    the higher seed at home, with a key such as [afc-wc-1]. *)
Definition wildCardMatchup (c : Conference) (slot hi lo : Z) : Matchup :=
  mkMatchup (Some (conferenceKey c ++ "-wc-" ++ digit slot))
    (Some (seededTeam c hi)) (Some (seededTeam c lo)) None.

(** Modelled from the spec: a matchup of a later round of a fresh
    bracket, with no teams and no winner. *)
Definition emptyMatchup (key : string) : Matchup :=
  mkMatchup (Some key) None None None.

(** Modelled from the spec: the conference bracket of a fresh bracket,
    seeded 2v7, 3v6 and 4v5. *)
Definition initialConference (c : Conference) : ConferenceBracket :=
  mkConferenceBracket
    [wildCardMatchup c 1 2 7; wildCardMatchup c 2 3 6; wildCardMatchup c 3 4 5]
    [emptyMatchup (conferenceKey c ++ "-div-1");
     emptyMatchup (conferenceKey c ++ "-div-2")]
    (Some (emptyMatchup (conferenceKey c ++ "-champ"))).

(** Modelled from the spec: [createInitialBracket] of lib/playoff-rules is
    missing.  Three wild-card matchups per conference seeded 2v7, 3v6 and
    4v5 with the higher seed at home, every later round empty, not
    complete. *)
Definition specCreateInitialBracket (ownerName : string) : BracketState :=
  mkBracketState (initialConference AFC) (initialConference NFC)
    (Some (emptyMatchup "super-bowl")) ownerName "My Bracket" false.

Local Close Scope string_scope.

(** Modelled from the spec: the surviving teams ordered by seed, best
    seed first. *)
Fixpoint insertBySeed (t : Team) (l : list Team) : list Team :=
  match l with
  | [] => [t]
  | u :: rest => if seed t <=? seed u then t :: l else u :: insertBySeed t rest
  end.

(** Modelled from the spec: [calculateDivisionalMatchups] of
    lib/playoff-rules is missing.  With three winners, the #1 seed hosts
    the lowest remaining seed and the better of the other two hosts the
    other; with a winner absent the slots stay absent. *)
Definition specCalculateDivisionalMatchups (c : Conference)
    (winners : list (option Team)) : DivisionalPairings :=
  match winners with
  | [Some w1; Some w2; Some w3] =>
      match insertBySeed w1 (insertBySeed w2 [w3]) with
      | [best; middle; worst] =>
          mkDivisionalPairings
            (mkPairing (Some (seededTeam c 1)) (Some worst))
            (mkPairing (Some best) (Some middle))
      | _ => mkDivisionalPairings (mkPairing None None) (mkPairing None None)
      end
  | _ => mkDivisionalPairings (mkPairing None None) (mkPairing None None)
  end.

(** Modelled from the spec: [calculateChampionshipMatchup] of
    lib/playoff-rules is missing.  The two divisional winners meet, the
    higher seed at home; an absent winner is an absent slot. *)
Definition specCalculateChampionshipMatchup (winners : list (option Team)) : Pairing :=
  match winners with
  | [Some a; Some b] =>
      if seed a <=? seed b then mkPairing (Some a) (Some b)
      else mkPairing (Some b) (Some a)
  | [a; b] => mkPairing a b
  | _ => mkPairing None None
  end.

Definition hasWinner (m : option Matchup) : bool :=
  match m with
  | Some m' => match winner m' with Some _ => true | None => false end
  | None => false
  end.

(** Modelled from the spec: [isBracketComplete] of lib/playoff-rules is
    missing.  True iff all 13 matchups have a winner. *)
Definition specIsBracketComplete (b : BracketState) : bool :=
  forallb hasWinner (getAllMatchupsOrdered b).

Definition specRules : PlayoffRules :=
  mkPlayoffRules specCreateInitialBracket specCalculateDivisionalMatchups
    specCalculateChampionshipMatchup specIsBracketComplete.

Definition tok (s : string) : list ascii := list_ascii_of_string s.

(** * Notions used to state the properties *)

(** ** Codes, sextets and bytes *)

Definition isCode (c : Z) : Prop := 0 <= c < 4.

(** The number whose base-4 digits, least significant first, are [codes]. *)
Fixpoint packValue (codes : list Z) : Z :=
  match codes with
  | [] => 0
  | c :: rest => c + 4 * packValue rest
  end.

(** The character of a sextet after the URL-safe substitution, and the
    substitution undone. *)
Definition urlChar (s : Z) : ascii := subChar "/" "_" (subChar "+" "-" (b64char s)).
Definition stdChar (c : ascii) : ascii := subChar "_" "/" (subChar "-" "+" c).

Definition isSextet (s : Z) : Prop := 0 <= s < 64.
Definition isByte (b : Z) : Prop := 0 <= b < 256.

Definition allSextets (p : Z -> bool) : bool :=
  forallb p (map Z.of_nat (seq 0 64)).

Definition optZ_eqb (a b : option Z) : bool :=
  match a, b with
  | Some x, Some y => x =? y
  | None, None => true
  | _, _ => false
  end.

Definition sextetCharOk (s : Z) : bool :=
  optZ_eqb (b64val (b64char s)) (Some s)
  && negb (isAsciiWhitespace (b64char s))
  && negb (Ascii.eqb (b64char s) padChar)
  && negb (Ascii.eqb (urlChar s) padChar)
  && Ascii.eqb (stdChar (urlChar s)) (b64char s).

(** The sextets of four bytes, as [base64] cuts them. *)
Definition sextetsOf4 (b0 b1 b2 b3 : Z) : list Z :=
  [ b0 / 4; b0 mod 4 * 16 + b1 / 16; b1 mod 16 * 4 + b2 / 64; b2 mod 64;
    b3 / 4; b3 mod 4 * 16 ].

Definition winnerCode (m : option Matchup) : Z :=
  match getWinnerCode m with
  | Ok c => c
  | Throw _ => 0
  end.

Definition pickCodes (bracket : BracketState) : list Z :=
  map winnerCode (getAllMatchupsOrdered bracket).

Definition charCodes (s : string) : list Z :=
  map (fun c => Z.of_nat (nat_of_ascii c)) (list_ascii_of_string s).

(** ** Matchups and slots *)

(** The winner's id is the id of the team in this slot. *)
Definition idMatches (w : Team) (slot : option Team) : Prop :=
  exists t, slot = Some t /\ teamId w = teamId t.

(** The 13 matchups of a bracket, by round; [k] counts from 0. *)
Inductive Slot : Type :=
| WildCardSlot (c : Conference) (k : nat)
| DivisionalSlot (c : Conference) (k : nat)
| ChampionshipSlot (c : Conference)
| SuperBowlSlot.

Definition validSlot (s : Slot) : Prop :=
  match s with
  | WildCardSlot _ k => (k < 3)%nat
  | DivisionalSlot _ k => (k < 2)%nat
  | ChampionshipSlot _ | SuperBowlSlot => True
  end.

(** The fixed matchup order of the design document. *)
Definition slotIndex (s : Slot) : nat :=
  match s with
  | WildCardSlot AFC k => k
  | WildCardSlot NFC k => 3 + k
  | DivisionalSlot AFC k => 6 + k
  | DivisionalSlot NFC k => 8 + k
  | ChampionshipSlot AFC => 10
  | ChampionshipSlot NFC => 11
  | SuperBowlSlot => 12
  end.

Definition conferenceOf (b : BracketState) (c : Conference) : ConferenceBracket :=
  match c with AFC => afc b | NFC => nfc b end.

Definition matchupAt (b : BracketState) (s : Slot) : option Matchup :=
  match s with
  | WildCardSlot c k => at_ (wildCard (conferenceOf b c)) k
  | DivisionalSlot c k => at_ (divisional (conferenceOf b c)) k
  | ChampionshipSlot c => championship (conferenceOf b c)
  | SuperBowlSlot => superBowl b
  end.

(** The alphabet of base64url. *)
Definition isBase64UrlChar (c : ascii) : bool :=
  match b64val (stdChar c) with
  | Some _ => negb (Ascii.eqb c "+") && negb (Ascii.eqb c "/")
  | None => false
  end.

Definition undecided (m : option Matchup) : Prop :=
  match m with
  | Some m' => winner m' = None
  | None => True
  end.

(** ** The rounds of an applied bracket *)

(** The code that belongs to a slot. *)
Definition codeAt (codes : list Z) (s : Slot) : option Z := at_ codes (slotIndex s).

Definition winnerOf (m : option Matchup) : option Team :=
  match m with
  | Some m' => winner m'
  | None => None
  end.

(** A fresh bracket has its three wild-card matchups per conference. *)
Definition seeded (fresh : BracketState) : Prop :=
  (3 <= length (wildCard (afc fresh)))%nat /\ (3 <= length (wildCard (nfc fresh)))%nat.

(** The later rounds as [applyPicksToFreshBracket] builds them, written
    over the bracket [applied] that it returns: the team slots are
    computed from the winners found in [applied], then the round's own
    code is applied.  These serve in the proofs. *)
Definition derivedDivisional (rules : PlayoffRules) (fresh applied : BracketState)
    (c : Conference)
    (codes : list Z) : list Matchup :=
  let p := calculateDivisionalMatchups rules c
             (map winner (wildCard (conferenceOf applied c))) in
  [ applyCodeTo
      (withTeams (matchupAt fresh (DivisionalSlot c 0))
         (home (matchup1 p)) (away (matchup1 p)))
      (codeAt codes (DivisionalSlot c 0));
    applyCodeTo
      (withTeams (matchupAt fresh (DivisionalSlot c 1))
         (home (matchup2 p)) (away (matchup2 p)))
      (codeAt codes (DivisionalSlot c 1)) ].

Definition derivedChampionship (rules : PlayoffRules) (fresh applied : BracketState)
    (c : Conference)
    (codes : list Z) : Matchup :=
  let p := calculateChampionshipMatchup rules
             (map winner (divisional (conferenceOf applied c))) in
  applyCodeTo
    (withTeams (matchupAt fresh (ChampionshipSlot c)) (home p) (away p))
    (codeAt codes (ChampionshipSlot c)).

Definition derivedSuperBowl (fresh applied : BracketState) (codes : list Z) : Matchup :=
  applyCodeTo
    (withTeams (matchupAt fresh SuperBowlSlot)
       (winnerOf (championship (afc applied)))
       (winnerOf (championship (nfc applied))))
    (codeAt codes SuperBowlSlot).

Definition appliedWildCard (fresh : BracketState) (c : Conference)
    (codes : list Z) : list (option Matchup) :=
  map (fun k =>
         option_map (fun m => applyCodeTo m (codeAt codes (WildCardSlot c k)))
           (matchupAt fresh (WildCardSlot c k)))
      [0; 1; 2]%nat.

(** The id of a matchup that may be absent. *)
Definition idOf (m : option Matchup) : option string :=
  match m with
  | Some m' => matchupId m'
  | None => None
  end.

(** What the design asks of the matchup [m] found in a slot of the
    returned bracket, where [f] is the matchup of this slot in the fresh
    bracket, [h] and [a] the two teams derived for the slot and [code] the
    code of the slot: [m] has the id of [f], its team slots are [h] and
    [a], and its winner is the one that the code names among these team
    slots (0: no pick, the winner stays that of [f]; 1: the home team;
    any other code: the away team). *)
Definition derivedThenPicked (f : option Matchup) (h a : option Team)
    (code : option Z) (m : Matchup) : Prop :=
  matchupId m = idOf f /\ homeTeam m = h /\ awayTeam m = a /\
  (code = Some 0 -> winner m = winnerOf f) /\
  (code = Some 1 -> winner m = h) /\
  (code <> Some 0 -> code <> Some 1 -> winner m = a).

(** ** Valid brackets *)

(** Two matchups with the same teams and the same winner. *)
Definition samePicks (r m : Matchup) : Prop :=
  homeTeam r = homeTeam m /\ awayTeam r = awayTeam m /\ winner r = winner m.

(** The matchup invariant of the data model: a winner is one of the two
    teams, and the two teams of a game have different ids. *)
Definition consistent (m : Matchup) : Prop :=
  (winner m = None \/ winner m = homeTeam m \/ winner m = awayTeam m) /\
  (forall h a, homeTeam m = Some h -> awayTeam m = Some a -> teamId h <> teamId a).

(** A fresh bracket has no winners. *)
Definition freshUndecided (rules : PlayoffRules) : Prop :=
  forall owner s, validSlot s ->
    undecided (matchupAt (createInitialBracket rules owner) s).

(** The invariants of a bracket state: three wild-card matchups per
    conference with the teams of the fresh seeding; the team slots of
    every later round are those the rules give for the winners of the
    round before; every matchup is consistent. *)
Record validBracket (rules : PlayoffRules) (b : BracketState) : Prop := mkValidBracket {
  valid_wildCard_length :
    forall c, length (wildCard (conferenceOf b c)) = 3%nat;
  valid_wildCard :
    forall c k, (k < 3)%nat ->
      exists m f,
        matchupAt b (WildCardSlot c k) = Some m /\
        matchupAt (createInitialBracket rules (userName b)) (WildCardSlot c k) = Some f /\
        homeTeam m = homeTeam f /\ awayTeam m = awayTeam f;
  valid_divisional :
    forall c, exists d0 d1,
      divisional (conferenceOf b c) = [d0; d1] /\
      let p := calculateDivisionalMatchups rules c
                 (map winner (wildCard (conferenceOf b c))) in
      homeTeam d0 = home (matchup1 p) /\ awayTeam d0 = away (matchup1 p) /\
      homeTeam d1 = home (matchup2 p) /\ awayTeam d1 = away (matchup2 p);
  valid_championship :
    forall c, exists m,
      championship (conferenceOf b c) = Some m /\
      let p := calculateChampionshipMatchup rules
                 (map winner (divisional (conferenceOf b c))) in
      homeTeam m = home p /\ awayTeam m = away p;
  valid_superBowl :
    exists m,
      superBowl b = Some m /\
      homeTeam m = winnerOf (championship (afc b)) /\
      awayTeam m = winnerOf (championship (nfc b));
  valid_consistent :
    forall s m, validSlot s -> matchupAt b s = Some m -> consistent m
}.

(** ** Characters that atob refuses *)

(** A character that [atob] neither decodes, nor skips, nor takes for
    padding: outside the base64url alphabet and none of [+], [/], [=] and
    ASCII whitespace. *)
Definition foreignChar (c : ascii) : bool :=
  negb (isBase64UrlChar c) && negb (Ascii.eqb c "+") && negb (Ascii.eqb c "/")
  && negb (Ascii.eqb c padChar) && negb (isAsciiWhitespace c).

Definition undecodable (c : ascii) : bool :=
  match b64val c with
  | Some _ => false
  | None => negb (Ascii.eqb c padChar) && negb (isAsciiWhitespace c)
  end.

(** ** Sample brackets *)

Definition afc2 : Team := seededTeam AFC 2.
Definition afc7 : Team := seededTeam AFC 7.
Definition nfc3 : Team := seededTeam NFC 3.

Definition game27 (w : option Team) : Matchup :=
  mkMatchup None (Some afc2) (Some afc7) w.

Definition samplePicks : list Z := [1; 2; 1; 2; 1; 2; 1; 2; 1; 2; 1; 2; 1].

(** The bracket of the owner Ann with the picks [samplePicks]. *)
Definition pickedBracket : BracketState :=
  match applyPicksToFreshBracket specRules samplePicks "Ann" with
  | Ok b => b
  | Throw _ => specCreateInitialBracket "Ann"
  end.

(** Codes that leave the third AFC wild-card game open: the AFC
    divisional round then has no teams, and the codes 1 given for its two
    games, for the AFC championship and for the Super Bowl name a home
    slot that is null. *)
Definition homeOnlyPicks : list Z := [1; 1; 0; 1; 1; 1; 1; 1; 1; 2; 1; 2; 1].

(** A fresh bracket in which only the Super Bowl is filled in and won by
    its home team. *)
Definition superBowlOnly : BracketState :=
  mkBracketState (initialConference AFC) (initialConference NFC)
    (Some (mkMatchup (Some "super-bowl"%string) (Some (seededTeam AFC 1))
             (Some (seededTeam NFC 1)) (Some (seededTeam AFC 1))))
    "Ann" "My Bracket" false.

(** * The share URL and the callers of the codec *)

(** ** URLSearchParams of the platform *)

Local Open Scope string_scope.
Local Open Scope Z_scope.

(** The list of name-value pairs of a [URLSearchParams] object. *)
Definition URLSearchParams : Type := list (string * string).

(** [params.get(key)]: the value of the first pair of that name, or null. *)
Fixpoint searchParamsGet (params : URLSearchParams) (key : string) : option string :=
  match params with
  | [] => None
  | (k, v) :: rest => if String.eqb k key then Some v else searchParamsGet rest key
  end.

Definition searchParamsDelete (params : URLSearchParams) (key : string) : URLSearchParams :=
  filter (fun kv => negb (String.eqb (fst kv) key)) params.

(** [params.set(key, value)]: the first pair of that name takes the value
    and the other pairs of that name are removed; without such a pair a
    new one is appended. *)
Fixpoint searchParamsSet (params : URLSearchParams) (key value : string) : URLSearchParams :=
  match params with
  | [] => [(key, value)]
  | (k, v) :: rest =>
      if String.eqb k key then (k, value) :: searchParamsDelete rest key
      else (k, v) :: searchParamsSet rest key value
  end.

(** The UTF-8 bytes of a code unit below U+0100. *)
Definition utf8Bytes (c : ascii) : list Z :=
  let n := Z.of_nat (nat_of_ascii c) in
  if n <? 128 then [n] else [192 + n / 64; 128 + n mod 64].

(** The bytes that the application/x-www-form-urlencoded serializer
    leaves as they are: ASCII alphanumerics and [*], [-], [.], [_]. *)
Definition urlencodedKeeps (b : Z) : bool :=
  ((48 <=? b) && (b <=? 57)) || ((65 <=? b) && (b <=? 90))
  || ((97 <=? b) && (b <=? 122))
  || (b =? 42) || (b =? 45) || (b =? 46) || (b =? 95).

Definition hexDigit (n : Z) : ascii :=
  nth (Z.to_nat n) (list_ascii_of_string "0123456789ABCDEF") "0"%char.

Definition urlencodeByte (b : Z) : list ascii :=
  if b =? 32 then ["+"%char]
  else if urlencodedKeeps b then [ascii_of_nat (Z.to_nat b)]
  else ["%"%char; hexDigit (b / 16); hexDigit (b mod 16)].

(** Percent-encoding of a name or value, a space becoming [+]. *)
Definition urlencode (s : string) : string :=
  string_of_list_ascii
    (flat_map urlencodeByte (flat_map utf8Bytes (list_ascii_of_string s))).

(** [params.toString()]: the application/x-www-form-urlencoded
    serializer of the URL standard. *)
Definition searchParamsToString (params : URLSearchParams) : string :=
  String.concat "&" (map (fun kv => urlencode (fst kv) ++ "=" ++ urlencode (snd kv)) params).

(** ** Share URL (lib/url-encoding) *)

(** Truthiness of a string, and of a string or null. *)
Definition nonEmpty (s : string) : bool := negb (String.eqb s "").

Definition truthy (s : option string) : bool :=
  match s with
  | Some s' => nonEmpty s'
  | None => false
  end.

(** The search parameters that [generateShareableUrl] builds before it
    serializes them. *)
Definition shareParams (bracket : BracketState) : Res URLSearchParams :=
  encoded <- encodeBracketPicks bracket ;;
  let params := searchParamsSet [] "b" (string_of_list_ascii encoded) in
  Ok (if nonEmpty (userName bracket)
      then searchParamsSet params "name" (userName bracket)
      else params).

(** [origin] is [window.location.origin], or [None] where there is no
    [window]. *)
Definition generateShareableUrl (origin : option string) (bracket : BracketState) : Res string :=
  params <- shareParams bracket ;;
  let base := match origin with Some o => o | None => "" end in
  Ok (base ++ "/?" ++ searchParamsToString params).

Inductive ViewMode : Type := ViewBracket | ViewLive.

Module UrlParams.
Record t : Type := mk {
  encodedBracket : option string;
  userName : option string;
  viewMode : option ViewMode
}.
End UrlParams.

Definition parseUrlParams (searchParams : URLSearchParams) : UrlParams.t :=
  UrlParams.mk
    (searchParamsGet searchParams "b")
    (searchParamsGet searchParams "name")
    (match searchParamsGet searchParams "view" with
     | Some v => if String.eqb v "live" then Some ViewLive else None
     | None => None
     end).

(** ** The hook useUrlState (hooks/useUrlState) *)

(** The state computed from the search parameters; the field
    [generateUrl], which is [generateShareableUrl] itself, is left out. *)
Record UrlState : Type := mkUrlState {
  isSharedBracket : bool;
  sharedBracketOwner : option string;
  initialViewMode : option ViewMode;
  sharedBracket : option BracketState
}.

(** [try { ... } catch (e) { console.error(...) }] around an assignment
    to a variable that starts as null. *)
Definition orNull {A : Type} (r : Res A) : option A :=
  match r with
  | Ok a => Some a
  | Throw _ => None
  end.

(** [userName || "Someone"]. *)
Definition ownerOrSomeone (userName' : option string) : string :=
  match userName' with
  | Some s => if nonEmpty s then s else "Someone"
  | None => "Someone"
  end.

Definition useUrlState (rules : PlayoffRules) (searchParams : URLSearchParams) : UrlState :=
  let p := parseUrlParams searchParams in
  let shared :=
    match UrlParams.encodedBracket p with
    | Some encoded =>
        if nonEmpty encoded then
          orNull (codes <- decodeBracketPicks (list_ascii_of_string encoded) ;;
                  applyPicksToFreshBracket rules codes
                    (ownerOrSomeone (UrlParams.userName p)))
        else None
    | None => None
    end in
  mkUrlState (truthy (UrlParams.encodedBracket p)) (UrlParams.userName p)
    (UrlParams.viewMode p) shared.

(** ** Live games (contexts/GameDialogContext, components/bracket/SuperBowl) *)

(** Modelled from the spec: the declaration of [LiveResult] in
    [types/index] is missing.  The record has the team ids, the scores
    and the two status flags that the Super Bowl component reads to show
    a score; the fields of the game clock play no part here. *)
Record LiveResult : Type := mkLiveResult {
  homeTeamId : string;
  awayTeamId : string;
  homeScore : Z;
  awayScore : Z;
  isInProgress : bool;
  gameIsComplete : bool     (* [isComplete] *)
}.

Inductive GameConference : Type := GameAFC | GameNFC | GameSuperBowl.

Inductive GameRound : Type :=
  RoundWildCard | RoundDivisional | RoundConference | RoundSuperBowl.

(** Modelled from the spec: the declaration of [LiveGameInfo] in
    [types/index] is missing; these are the four fields that
    [findGameByMatchupId] fills. *)
Module LiveGame.
Record t : Type := mk {
  matchup : Matchup;
  liveResult : LiveResult;
  conference : GameConference;
  round : GameRound
}.
End LiveGame.

(** [m.id === matchupId]. *)
Definition hasId (key : string) (m : Matchup) : bool :=
  match matchupId m with
  | Some i => String.eqb i key
  | None => false
  end.

(** The search of the bracket: the first round, in the order of the
    source, that holds a matchup of this id, with its labels. *)
Definition findInBracket (bracket : BracketState) (key : string)
  : option (Matchup * GameConference * GameRound) :=
  match find (hasId key) (wildCard (afc bracket)) with
  | Some m => Some (m, GameAFC, RoundWildCard)
  | None =>
  match find (hasId key) (wildCard (nfc bracket)) with
  | Some m => Some (m, GameNFC, RoundWildCard)
  | None =>
  match find (hasId key) (divisional (afc bracket)) with
  | Some m => Some (m, GameAFC, RoundDivisional)
  | None =>
  match find (hasId key) (divisional (nfc bracket)) with
  | Some m => Some (m, GameNFC, RoundDivisional)
  | None =>
  match championship (afc bracket) with
  | Some m => if hasId key m then Some (m, GameAFC, RoundConference) else
      match championship (nfc bracket) with
      | Some m' => if hasId key m' then Some (m', GameNFC, RoundConference) else
          match superBowl bracket with
          | Some sb => if hasId key sb then Some (sb, GameSuperBowl, RoundSuperBowl) else None
          | None => None
          end
      | None =>
          match superBowl bracket with
          | Some sb => if hasId key sb then Some (sb, GameSuperBowl, RoundSuperBowl) else None
          | None => None
          end
      end
  | None =>
      match championship (nfc bracket) with
      | Some m' => if hasId key m' then Some (m', GameNFC, RoundConference) else
          match superBowl bracket with
          | Some sb => if hasId key sb then Some (sb, GameSuperBowl, RoundSuperBowl) else None
          | None => None
          end
      | None =>
          match superBowl bracket with
          | Some sb => if hasId key sb then Some (sb, GameSuperBowl, RoundSuperBowl) else None
          | None => None
          end
      end
  end end end end end.

(** [liveGames] is what [getAllLiveGames()] returns. *)
Definition findGameByMatchupId (liveGames : list LiveGame.t)
    (getLiveResultForMatchup : string -> option LiveResult)
    (bracket : BracketState) (key : string) : option LiveGame.t :=
  match find (fun g => hasId key (LiveGame.matchup g)) liveGames with
  | Some liveGame => Some liveGame
  | None =>
      match findInBracket bracket key with
      | None => None
      | Some (m, conference', round') =>
          match getLiveResultForMatchup key with
          | None => None
          | Some liveResult' => Some (LiveGame.mk m liveResult' conference' round')
          end
      end
  end.

(** [a === b] for two values that are a string or undefined. *)
Definition optStringEqb (a b : option string) : bool :=
  match a, b with
  | Some x, Some y => String.eqb x y
  | None, None => true
  | _, _ => false
  end.

(** [hasGameData], which is also [showScores], as the condition of a
    conditional: [liveResult && (liveResult.isInProgress ||
    liveResult.isComplete)]. *)
Definition hasGameData (liveResult' : option LiveResult) : bool :=
  match liveResult' with
  | Some r => isInProgress r || gameIsComplete r
  | None => false
  end.

(** The local variables [homeScore] and [awayScore] of the Super Bowl
    component: the scores of the live result mapped to the teams of the
    matchup. *)
Definition homeScoreLocal (liveResult' : option LiveResult) (homeTeam' : option Team)
  : option Z :=
  if optStringEqb (option_map homeTeamId liveResult') (option_map teamId homeTeam')
  then option_map homeScore liveResult'
  else option_map awayScore liveResult'.

Definition awayScoreLocal (liveResult' : option LiveResult) (awayTeam' : option Team)
  : option Z :=
  if optStringEqb (option_map awayTeamId liveResult') (option_map teamId awayTeam')
  then option_map awayScore liveResult'
  else option_map homeScore liveResult'.

(** The [score] prop of the home and of the away card, which is what a
    card shows: [showScores ? homeScore : undefined]. *)
Definition homeCardScore (liveResult' : option LiveResult) (homeTeam' : option Team)
  : option Z :=
  if hasGameData liveResult' then homeScoreLocal liveResult' homeTeam' else None.

Definition awayCardScore (liveResult' : option LiveResult) (awayTeam' : option Team)
  : option Z :=
  if hasGameData liveResult' then awayScoreLocal liveResult' awayTeam' else None.

(** [String(n)] for an integer [n] below [2 ^ 53] in magnitude: its
    decimal digits, after a minus sign when it is negative. *)
Definition numberToString (n : Z) : string := NilEmpty.string_of_int (Z.to_int n).

(** [Number.isSafeInteger]: the whole numbers that a double holds exactly
    together with their neighbours. *)
Definition isSafeInteger (n : Z) : Prop := - 2 ^ 53 < n < 2 ^ 53.

(** [formatQuarter] on the safe integers, where the subtraction
    [quarter - 4] is exact and the template prints the decimal digits;
    the properties below are stated for such quarters only. *)
Definition formatQuarter (quarter : Z) : string :=
  if quarter =? 1 then "1st"
  else if quarter =? 2 then "2nd"
  else if quarter =? 3 then "3rd"
  else if quarter =? 4 then "4th"
  else if 5 <=? quarter
       then "OT" ++ (if 5 <? quarter then numberToString (quarter - 4) else "")
       else "Q" ++ numberToString quarter.

(** ** Clicks on a matchup (components/bracket/Matchup) *)

(** What a click makes the component call. *)
Inductive Dispatch : Type :=
| NoDispatch
| ClearWinner (key : option string)
| SelectWinner (key : option string) (team : Team).

(** A team slot of the matchup object that the component receives.  The
    component compares a slot with [null] by [!==], which tells [null]
    from [undefined], so the two are kept apart here. *)
Inductive JsTeam : Type :=
| JsNull
| JsUndefined
| JsSome (team : Team).

Record MatchupObject : Type := mkMatchupObject {
  objId : option string;    (* [id] *)
  objHome : JsTeam;         (* [homeTeam] *)
  objAway : JsTeam;         (* [awayTeam] *)
  objWinner : JsTeam        (* [winner] *)
}.

(** [slot !== null]. *)
Definition notNull (slot : JsTeam) : bool :=
  match slot with
  | JsNull => false
  | JsUndefined | JsSome _ => true
  end.

Definition canSelect (m : MatchupObject) : bool :=
  notNull (objHome m) && notNull (objAway m).

(** [winner?.id === team.id]. *)
Definition winnerIs (m : MatchupObject) (team : Team) : bool :=
  match objWinner m with
  | JsSome w => String.eqb (teamId w) (teamId team)
  | JsNull | JsUndefined => false
  end.

(** [hasOnClearWinner] tells whether the optional [onClearWinner] is given. *)
Definition handleSelect (hasOnClearWinner : bool) (m : MatchupObject) (team : Team)
  : Dispatch :=
  if negb (canSelect m) then NoDispatch
  else if winnerIs m team && hasOnClearWinner then ClearWinner (objId m)
  else SelectWinner (objId m) team.

(** The [onClick] of the two cards: [() => homeTeam && handleSelect(homeTeam)]. *)
Definition clickHome (hasOnClearWinner : bool) (m : MatchupObject) : Dispatch :=
  match objHome m with
  | JsSome h => handleSelect hasOnClearWinner m h
  | JsNull | JsUndefined => NoDispatch
  end.

Definition clickAway (hasOnClearWinner : bool) (m : MatchupObject) : Dispatch :=
  match objAway m with
  | JsSome a => handleSelect hasOnClearWinner m a
  | JsNull | JsUndefined => NoDispatch
  end.

(** The same object as the codec reads it: [getWinnerCode] tests a slot
    for truth only, which [null] and [undefined] both fail. *)
Definition truthyTeam (slot : JsTeam) : option Team :=
  match slot with
  | JsSome t => Some t
  | JsNull | JsUndefined => None
  end.

Definition asMatchup (m : MatchupObject) : Matchup :=
  mkMatchup (objId m) (truthyTeam (objHome m)) (truthyTeam (objAway m))
    (truthyTeam (objWinner m)).

Local Close Scope string_scope.

(** ** Notions used by the further properties *)

(** The code that a code, or a missing code, acts as. *)
Definition canonicalCode (code : option Z) : Z :=
  if codeIs code 0 then 0 else if codeIs code 1 then 1 else 2.

Definition canonicalCodes (codes : list Z) : list Z :=
  map (fun i => canonicalCode (at_ codes i))
    [0; 1; 2; 3; 4; 5; 6; 7; 8; 9; 10; 11; 12]%nat.

(** The code read back from a matchup to which [code] has been applied:
    a pick of a team slot that is null is lost. *)
Definition readBack (code : option Z) (m : Matchup) : Z :=
  if codeIs code 0 then 0
  else if codeIs code 1
       then match homeTeam m with Some _ => 1 | None => 0 end
       else match awayTeam m with Some _ => 2 | None => 0 end.

(** The two teams of a game have different ids. *)
Definition distinctTeams (m : Matchup) : Prop :=
  forall h a, homeTeam m = Some h -> awayTeam m = Some a -> teamId h <> teamId a.

(** The characters of a serialized name or value: those kept and the
    two that the encoding introduces. *)
Definition urlencodedChar (c : ascii) : bool :=
  urlencodedKeeps (Z.of_nat (nat_of_ascii c))
  || Ascii.eqb c "+" || Ascii.eqb c "%".

(** The matchups of a round of a conference, as a game is labelled. *)
Definition roundMatchups (b : BracketState) (c : GameConference) (r : GameRound)
  : list Matchup :=
  match c, r with
  | GameAFC, RoundWildCard => wildCard (afc b)
  | GameNFC, RoundWildCard => wildCard (nfc b)
  | GameAFC, RoundDivisional => divisional (afc b)
  | GameNFC, RoundDivisional => divisional (nfc b)
  | GameAFC, RoundConference => defined [championship (afc b)]
  | GameNFC, RoundConference => defined [championship (nfc b)]
  | GameSuperBowl, RoundSuperBowl => defined [superBowl b]
  | _, _ => []
  end.

(** All the matchups that a bracket holds. *)
Definition allMatchups (b : BracketState) : list Matchup :=
  wildCard (afc b) ++ wildCard (nfc b) ++ divisional (afc b) ++ divisional (nfc b)
  ++ defined [championship (afc b); championship (nfc b); superBowl b].

(** The score that a live result records for the team of this id. *)
Definition scoreOf (r : LiveResult) (team : string) : Z :=
  if String.eqb (homeTeamId r) team then homeScore r else awayScore r.

Definition sampleLive : LiveResult := mkLiveResult "nfc-1" "afc-1" 24 17 false true.

(** The same game before its kick-off. *)
Definition scheduledLive : LiveResult := mkLiveResult "nfc-1" "afc-1" 0 0 false false.

(** A game whose home slot was never written. *)
Definition halfFilled : MatchupObject :=
  mkMatchupObject (Some "afc-div-1"%string) JsUndefined (JsSome afc7) JsNull.

Definition objGame27 (w : JsTeam) : MatchupObject :=
  mkMatchupObject None (JsSome afc2) (JsSome afc7) w.

Definition urlCharOk (c : ascii) : bool :=
  negb (isBase64UrlChar c)
  || (match b64val (stdChar c) with Some _ => true | None => false end
      && negb (isAsciiWhitespace (stdChar c))
      && negb (Ascii.eqb (stdChar c) padChar)).

(** The last character of the token for each Super Bowl code. *)
Definition superBowlChar (code : Z) : ascii :=
  if code =? 0 then "A"%char else if code =? 1 then "Q"%char else "g"%char.

Definition stdCharStable (c : ascii) : bool :=
  Ascii.eqb (stdChar (subChar "/" "_" (subChar "+" "-" c))) (stdChar c).

(** * Properties *)

(** ** The codec at sample tokens *)

Example encode_empty_token :
  toBase64Url (base64 [0; 0; 0; 0]) = tok "AAAAAA".
Proof. reflexivity. Qed.

Example decode_AAAAAA :
  decodeBracketPicks (tok "AAAAAA") = Ok [0;0;0;0;0;0;0;0;0;0;0;0;0].
Proof. reflexivity. Qed.

Example decode_short : decodeBracketPicks (tok "Bg") = Ok [2;1;0;0;0;0;0;0;0;0;0;0;0].
Proof. reflexivity. Qed.

Example decode_one_char : decodeBracketPicks (tok "A") = Throw InvalidCharacterError.
Proof. reflexivity. Qed.

(** ** Arithmetic of the 32-bit operators *)

Lemma toInt32_small (z : Z) : - 2 ^ 31 <= z < 2 ^ 31 -> toInt32 z = z.
Proof.
  intros H. unfold toInt32.
  rewrite Z.mod_small by lia. lia.
Qed.

Lemma land_31_small (n : Z) : 0 <= n < 32 -> Z.land n 31 = n.
Proof.
  intros H. change 31 with (Z.ones 5).
  rewrite Z.land_ones by lia. apply Z.mod_small. change (2 ^ 5) with 32. lia.
Qed.

Lemma sar32_small (a n : Z) :
  - 2 ^ 31 <= a < 2 ^ 31 -> 0 <= n < 32 -> sar32 a n = a / 2 ^ n.
Proof.
  intros Ha Hn. unfold sar32.
  rewrite toInt32_small, land_31_small by assumption.
  apply Z.shiftr_div_pow2. lia.
Qed.

Lemma and32_ones (a k : Z) :
  - 2 ^ 31 <= a < 2 ^ 31 -> 0 <= k < 31 -> and32 a (Z.ones k) = a mod 2 ^ k.
Proof.
  intros Ha Hk. unfold and32.
  assert (Hp : 0 < 2 ^ k < 2 ^ 31).
  { split. apply Z.pow_pos_nonneg; lia. apply Z.pow_lt_mono_r; lia. }
  rewrite (toInt32_small a) by assumption.
  rewrite toInt32_small by (rewrite Z.ones_equiv; unfold Z.pred; lia).
  apply Z.land_ones. lia.
Qed.

(** Joining a value below [2 ^ k] with a multiple of [2 ^ k] adds them. *)
Lemma lor_disjoint (lo hi k : Z) :
  0 <= k -> 0 <= lo < 2 ^ k -> Z.lor lo (hi * 2 ^ k) = lo + hi * 2 ^ k.
Proof.
  intros Hk Hlo.
  assert (Hland : Z.land lo (hi * 2 ^ k) = 0).
  { apply Z.bits_inj'. intros n Hn.
    rewrite Z.land_spec, Z.bits_0.
    destruct (Z.lt_ge_cases n k) as [Hlt | Hge].
    - rewrite Z.mul_pow2_bits_low by lia. apply andb_false_r.
    - destruct (Z.eq_dec lo 0) as [->|Hnz]; [rewrite Z.bits_0; reflexivity|].
      rewrite (Z.bits_above_log2 lo n); [reflexivity|lia|].
      apply Z.lt_le_trans with k; [|assumption].
      apply Z.log2_lt_pow2; lia. }
  rewrite <- Z.lxor_lor by assumption.
  symmetry. apply Z.add_nocarry_lxor. assumption.
Qed.

Lemma pow4 (i : Z) : 0 <= i -> 2 ^ (i * 2) = 4 ^ i.
Proof.
  intros Hi. rewrite Z.mul_comm, Z.pow_mul_r by lia. reflexivity.
Qed.

(** ** The packed value *)

Lemma packValue_bound (codes : list Z) :
  Forall isCode codes -> 0 <= packValue codes < 4 ^ Z.of_nat (length codes).
Proof.
  induction 1 as [|c rest Hc _ IH]; [simpl; lia|].
  cbn [packValue length]. rewrite Nat2Z.inj_succ, Z.pow_succ_r by lia.
  unfold isCode in Hc. lia.
Qed.

Lemma shl32_code (c i : Z) :
  isCode c -> 0 <= i < 15 -> shl32 c (i * 2) = c * 4 ^ i.
Proof.
  intros Hc Hi. unfold isCode in Hc. unfold shl32.
  rewrite (toInt32_small c) by lia.
  rewrite land_31_small by lia.
  rewrite Z.shiftl_mul_pow2, pow4 by lia.
  assert (H4 : 0 < 4 ^ i <= 4 ^ 14).
  { split; [apply Z.pow_pos_nonneg; lia | apply Z.pow_le_mono_r; lia]. }
  apply toInt32_small.
  change (4 ^ 14) with 268435456 in H4. change (2 ^ 31) with 2147483648. nia.
Qed.

Lemma packLoop_value (codes : list Z) :
  forall i packed,
    0 <= i -> i + Z.of_nat (length codes) <= 15 ->
    Forall isCode codes -> 0 <= packed < 4 ^ i ->
    packLoop codes i packed = packed + 4 ^ i * packValue codes.
Proof.
  induction codes as [|c rest IH]; intros i packed Hi Hlen Hcodes Hp.
  - simpl. lia.
  - inversion Hcodes as [|? ? Hc Hrest]; subst.
    cbn [length] in Hlen. rewrite Nat2Z.inj_succ in Hlen.
    cbn [packLoop packValue].
    assert (H4 : 0 < 4 ^ i <= 4 ^ 14).
    { split; [apply Z.pow_pos_nonneg; lia | apply Z.pow_le_mono_r; lia]. }
    change (4 ^ 14) with 268435456 in H4.
    assert (Hstep : or32 packed (shl32 c (i * 2)) = packed + c * 4 ^ i).
    { rewrite shl32_code by (assumption || lia).
      unfold or32. unfold isCode in Hc.
      rewrite !toInt32_small by (change (2 ^ 31) with 2147483648; nia).
      rewrite <- pow4 by lia. apply lor_disjoint; [lia|].
      rewrite pow4 by lia. assumption. }
    rewrite Hstep, IH; try assumption; try lia.
    + rewrite Z.pow_add_r by lia. change (4 ^ 1) with 4. ring.
    + rewrite Z.pow_add_r by lia. change (4 ^ 1) with 4.
      unfold isCode in Hc. nia.
Qed.

Lemma packCodes_value (codes : list Z) :
  Z.of_nat (length codes) <= 15 -> Forall isCode codes ->
  packCodes codes = packValue codes.
Proof.
  intros Hlen Hcodes. unfold packCodes.
  rewrite packLoop_value; try assumption; lia.
Qed.

Lemma packValue_testbit (codes : list Z) :
  Forall isCode codes ->
  forall (i : nat) (j : Z), 0 <= j < 2 ->
    Z.testbit (packValue codes) (Z.of_nat i * 2 + j) = Z.testbit (nth i codes 0) j.
Proof.
  induction 1 as [|c rest Hc Hrest IH]; intros i j Hj.
  - destruct i; simpl; rewrite !Z.bits_0; reflexivity.
  - unfold isCode in Hc. cbn [packValue]. destruct i as [|i].
    + cbn [nth]. change (Z.of_nat 0 * 2 + j) with j.
      rewrite <- (Z.mod_pow2_bits_low (c + 4 * packValue rest) 2 j) by lia.
      change (2 ^ 2) with 4.
      replace ((c + 4 * packValue rest) mod 4) with c; [reflexivity|].
      replace (c + 4 * packValue rest) with (c + packValue rest * 4) by ring.
      rewrite Z.mod_add by lia. symmetry. apply Z.mod_small. lia.
    + cbn [nth]. rewrite <- IH by assumption.
      replace (Z.of_nat (S i) * 2 + j) with (Z.of_nat i * 2 + j + 2) by lia.
      rewrite <- Z.div_pow2_bits by lia.
      change (2 ^ 2) with 4.
      replace ((c + 4 * packValue rest) / 4) with (packValue rest); [reflexivity|].
      replace (c + 4 * packValue rest) with (c + packValue rest * 4) by ring.
      rewrite Z.div_add, (Z.div_small c 4) by lia. lia.
Qed.

(** The bytes of a packed value that fits 31 bits. *)
Lemma packedBytes_small (packed : Z) :
  0 <= packed < 2 ^ 31 ->
  packedBytes packed =
    [ packed mod 256; (packed / 2 ^ 8) mod 256;
      (packed / 2 ^ 16) mod 256; (packed / 2 ^ 24) mod 256 ].
Proof.
  intros Hp.
  assert (Hbyte : forall n, 0 <= n < 32 ->
            toUint8 (and32 (sar32 packed n) 255) = (packed / 2 ^ n) mod 256).
  { intros n Hn.
    rewrite sar32_small by lia.
    assert (Hq : 0 <= packed / 2 ^ n <= packed).
    { split; [apply Z.div_pos; [lia | apply Z.pow_pos_nonneg; lia]|].
      apply Z.div_le_upper_bound; [apply Z.pow_pos_nonneg; lia|].
      assert (1 <= 2 ^ n) by (apply (Z.pow_le_mono_r 2 0 n); lia). nia. }
    change 255 with (Z.ones 8). rewrite and32_ones by lia.
    unfold toUint8. change (2 ^ 8) with 256. apply Z.mod_mod. lia. }
  unfold packedBytes. rewrite !Hbyte by lia.
  change (2 ^ 0) with 1. rewrite Z.div_1_r. reflexivity.
Qed.

(** ** The base64 alphabet *)

Lemma allSextets_spec (p : Z -> bool) :
  allSextets p = true -> forall s, isSextet s -> p s = true.
Proof.
  unfold allSextets, isSextet. intros H s Hs.
  rewrite forallb_forall in H. apply H.
  apply in_map_iff. exists (Z.to_nat s). split; [lia|].
  apply in_seq. lia.
Qed.

Lemma sextetChar_facts (s : Z) :
  isSextet s ->
  b64val (b64char s) = Some s /\
  isAsciiWhitespace (b64char s) = false /\
  Ascii.eqb (b64char s) padChar = false /\
  Ascii.eqb (urlChar s) padChar = false /\
  stdChar (urlChar s) = b64char s.
Proof.
  intros Hs.
  assert (H : sextetCharOk s = true).
  { apply allSextets_spec; [vm_compute; reflexivity | assumption]. }
  unfold sextetCharOk in H.
  repeat (apply andb_prop in H; destruct H as [H ?]).
  repeat match goal with
         | Hn : negb _ = true |- _ => apply negb_true_iff in Hn
         end.
  repeat split; try assumption.
  - destruct (b64val (b64char s)) as [v|]; simpl in H; [|discriminate].
    apply Z.eqb_eq in H. congruence.
  - apply Ascii.eqb_eq. assumption.
Qed.

Lemma sextetsOf4_range (b0 b1 b2 b3 : Z) :
  isByte b0 -> isByte b1 -> isByte b2 -> isByte b3 ->
  Forall isSextet (sextetsOf4 b0 b1 b2 b3).
Proof.
  unfold isByte, isSextet, sextetsOf4. intros H0 H1 H2 H3.
  repeat constructor; try (Z.div_mod_to_equations; lia).
Qed.

Lemma btoa_bytes (bs : list Z) : Forall isByte bs -> btoa bs = Ok (base64 bs).
Proof.
  intros H. unfold btoa.
  replace (forallb (fun c => (0 <=? c) && (c <=? 255)) bs) with true; [reflexivity|].
  symmetry. apply forallb_forall. intros c Hc.
  rewrite Forall_forall in H. specialize (H c Hc). unfold isByte in H.
  apply andb_true_intro. split; [apply Z.leb_le | apply Z.leb_le]; lia.
Qed.

Arguments b64char : simpl never.
Arguments urlChar : simpl never.

Lemma toBase64Url_4bytes (b0 b1 b2 b3 : Z) :
  isByte b0 -> isByte b1 -> isByte b2 -> isByte b3 ->
  toBase64Url (base64 [b0; b1; b2; b3]) = map urlChar (sextetsOf4 b0 b1 b2 b3).
Proof.
  intros H0 H1 H2 H3.
  pose proof (sextetsOf4_range b0 b1 b2 b3 H0 H1 H2 H3) as Hr.
  unfold sextetsOf4 in *.
  assert (H5 : Ascii.eqb (urlChar (b3 mod 4 * 16)) padChar = false).
  { apply sextetChar_facts.
    repeat match goal with H : Forall _ (_ :: _) |- _ => inversion H; clear H; subst end.
    assumption. }
  unfold toBase64Url, stripPadding, replaceAll.
  cbn [base64 map rev app].
  fold (urlChar (b0 / 4)) (urlChar (b0 mod 4 * 16 + b1 / 16))
       (urlChar (b1 mod 16 * 4 + b2 / 64)) (urlChar (b2 mod 64))
       (urlChar (b3 / 4)) (urlChar (b3 mod 4 * 16)).
  change (subChar "/" "_" (subChar "+" "-" padChar)) with padChar.
  cbn [dropWhile]. change (Ascii.eqb padChar padChar) with true. cbn iota.
  rewrite H5. reflexivity.
Qed.

(** ** Decoding what [base64] produces *)

Lemma filter_no_whitespace (l : list ascii) :
  Forall (fun c => isAsciiWhitespace c = false) l ->
  filter (fun c => negb (isAsciiWhitespace c)) l = l.
Proof.
  induction 1 as [|c rest Hc _ IH]; [reflexivity|].
  cbn [filter]. rewrite Hc, IH. reflexivity.
Qed.

Lemma dropPad_snoc (l : list ascii) : dropPad (l ++ [padChar]) = l.
Proof.
  unfold dropPad. rewrite rev_app_distr. cbn [rev app].
  change (Ascii.eqb padChar padChar) with true. cbn iota.
  apply rev_involutive.
Qed.

Lemma sextets_b64char (l : list Z) :
  Forall isSextet l -> sextets (map b64char l) = Some l.
Proof.
  induction 1 as [|s rest Hs _ IH]; [reflexivity|].
  cbn [map sextets].
  destruct (sextetChar_facts s Hs) as [-> _]. rewrite IH. reflexivity.
Qed.

Lemma atob_padded2 (l : list Z) :
  Forall isSextet l -> Z.of_nat (length l) mod 4 = 2 ->
  atob (map b64char l ++ [padChar; padChar]) = Ok (sextetBytes l).
Proof.
  intros Hl Hlen. unfold atob.
  rewrite filter_no_whitespace.
  2:{ apply Forall_app. split.
      - apply Forall_map. eapply Forall_impl; [|exact Hl].
        intros s Hs. apply (sextetChar_facts s Hs).
      - repeat constructor. }
  assert (Hfull : Z.of_nat (length (map b64char l ++ [padChar; padChar])) mod 4 = 0).
  { rewrite length_app, length_map. cbn [length].
    rewrite Nat2Z.inj_add. change (Z.of_nat 2) with 2.
    Z.div_mod_to_equations. lia. }
  rewrite Hfull. cbn [Z.eqb].
  change [padChar; padChar] with ([padChar] ++ [padChar]).
  rewrite app_assoc, !dropPad_snoc.
  rewrite length_map, Hlen. cbn [Z.eqb Pos.eqb].
  rewrite sextets_b64char by assumption. reflexivity.
Qed.

Lemma fromBase64Url_urlChars (l : list Z) :
  Forall isSextet l ->
  fromBase64Url (map urlChar l) =
    restorePadding (map b64char l).
Proof.
  intros Hl. unfold fromBase64Url, replaceAll. f_equal.
  rewrite !map_map.
  induction Hl as [|s rest Hs _ IH]; [reflexivity|].
  cbn [map]. rewrite IH. f_equal.
  apply (sextetChar_facts s Hs).
Qed.

Lemma sextetBytes_of4 (b0 b1 b2 b3 : Z) :
  isByte b0 -> isByte b1 -> isByte b2 -> isByte b3 ->
  sextetBytes (sextetsOf4 b0 b1 b2 b3) = [b0; b1; b2; b3].
Proof.
  unfold isByte, sextetsOf4. intros H0 H1 H2 H3.
  cbn [sextetBytes].
  repeat f_equal; Z.div_mod_to_equations; lia.
Qed.

(** The base64url token of four bytes decodes to these bytes. *)
Lemma atob_token_4bytes (b0 b1 b2 b3 : Z) :
  isByte b0 -> isByte b1 -> isByte b2 -> isByte b3 ->
  atob (fromBase64Url (toBase64Url (base64 [b0; b1; b2; b3]))) = Ok [b0; b1; b2; b3].
Proof.
  intros H0 H1 H2 H3.
  pose proof (sextetsOf4_range b0 b1 b2 b3 H0 H1 H2 H3) as Hr.
  rewrite toBase64Url_4bytes, fromBase64Url_urlChars by assumption.
  unfold restorePadding. rewrite length_map.
  change (repeat padChar _) with [padChar; padChar].
  rewrite atob_padded2; [|assumption|reflexivity].
  rewrite sextetBytes_of4 by assumption. reflexivity.
Qed.

(** ** Unpacking *)

Lemma shl32_small (a n : Z) :
  0 <= n < 32 -> - 2 ^ 31 <= a < 2 ^ 31 -> - 2 ^ 31 <= a * 2 ^ n < 2 ^ 31 ->
  shl32 a n = a * 2 ^ n.
Proof.
  intros Hn Ha Hr. unfold shl32.
  rewrite (toInt32_small a), land_31_small, Z.shiftl_mul_pow2 by lia.
  apply toInt32_small. assumption.
Qed.

Lemma or32_disjoint (lo hi k : Z) :
  0 <= k -> 0 <= lo < 2 ^ k -> lo < 2 ^ 31 ->
  - 2 ^ 31 <= hi * 2 ^ k < 2 ^ 31 ->
  or32 lo (hi * 2 ^ k) = lo + hi * 2 ^ k.
Proof.
  intros Hk Hlo Hlo' Hhi. unfold or32.
  rewrite !toInt32_small by lia.
  apply lor_disjoint; assumption.
Qed.

Lemma jsInt32_at (bytes : list Z) (i : nat) :
  Forall isByte bytes -> jsInt32 (at_ bytes i) = nth i bytes 0 /\ isByte (nth i bytes 0).
Proof.
  intros H. revert i.
  induction H as [|b rest Hb _ IH]; intros [|i]; cbn [at_ nth_error nth jsInt32].
  - unfold isByte. lia.
  - unfold isByte. lia.
  - split; [|assumption]. unfold isByte in Hb. apply toInt32_small.
    change (2 ^ 31) with 2147483648. lia.
  - apply IH.
Qed.

Lemma unpackBytes_value (bytes : list Z) :
  Forall isByte bytes -> nth 3 bytes 0 < 128 ->
  unpackBytes bytes =
    nth 0 bytes 0 + nth 1 bytes 0 * 2 ^ 8 + nth 2 bytes 0 * 2 ^ 16
    + nth 3 bytes 0 * 2 ^ 24.
Proof.
  intros H H3. unfold unpackBytes.
  destruct (jsInt32_at bytes 0 H) as [-> B0].
  destruct (jsInt32_at bytes 1 H) as [-> B1].
  destruct (jsInt32_at bytes 2 H) as [-> B2].
  destruct (jsInt32_at bytes 3 H) as [-> B3].
  unfold isByte in *.
  set (b0 := nth 0 bytes 0) in *. set (b1 := nth 1 bytes 0) in *.
  set (b2 := nth 2 bytes 0) in *. set (b3 := nth 3 bytes 0) in *.
  rewrite !shl32_small by (change (2 ^ 31) with 2147483648; lia).
  rewrite (or32_disjoint b0 b1 8) by (change (2 ^ 31) with 2147483648; lia).
  rewrite (or32_disjoint _ b2 16) by (change (2 ^ 31) with 2147483648; lia).
  rewrite (or32_disjoint _ b3 24) by (change (2 ^ 31) with 2147483648; lia).
  reflexivity.
Qed.

Lemma extractCodes_length (packed i : Z) (n : nat) :
  length (extractCodes packed i n) = n.
Proof.
  revert i. induction n as [|n IH]; intros i; [reflexivity|].
  cbn [extractCodes length]. rewrite IH. reflexivity.
Qed.

Lemma extractCodes_nth (packed : Z) (n : nat) :
  forall (i : Z) (k : nat), (k < n)%nat ->
    nth k (extractCodes packed i n) 0 = and32 (sar32 packed ((i + Z.of_nat k) * 2)) 3.
Proof.
  induction n as [|n IH]; intros i k Hk; [lia|].
  cbn [extractCodes]. destruct k as [|k]; cbn [nth].
  - rewrite Z.add_0_r. reflexivity.
  - rewrite IH by lia. do 3 f_equal. lia.
Qed.

Lemma and32_3 (a : Z) : and32 a 3 = toInt32 a mod 4.
Proof.
  unfold and32. rewrite (toInt32_small 3) by (change (2 ^ 31) with 2147483648; lia).
  change 3 with (Z.ones 2). rewrite Z.land_ones by lia. reflexivity.
Qed.

Lemma and32_3_isCode (a : Z) : isCode (and32 a 3).
Proof.
  rewrite and32_3. unfold isCode. apply Z.mod_pos_bound. lia.
Qed.

Lemma extractCodes_isCode (packed i : Z) (n : nat) :
  Forall isCode (extractCodes packed i n).
Proof.
  revert i. induction n as [|n IH]; intros i; cbn [extractCodes]; constructor.
  - apply and32_3_isCode.
  - apply IH.
Qed.

(** The code read at index [j] of a non-negative packed value. *)
Lemma code_at (packed j : Z) :
  0 <= packed < 2 ^ 31 -> 0 <= j < 16 ->
  and32 (sar32 packed (j * 2)) 3 = (packed / 4 ^ j) mod 4.
Proof.
  intros Hp Hj.
  rewrite and32_3, sar32_small, pow4 by lia.
  assert (H4 : 0 < 4 ^ j) by (apply Z.pow_pos_nonneg; lia).
  assert (Hq : 0 <= packed / 4 ^ j <= packed).
  { split; [apply Z.div_pos; lia|].
    apply Z.div_le_upper_bound; [lia|]. nia. }
  rewrite toInt32_small by lia. reflexivity.
Qed.

Lemma extractCodes_packValue (codes : list Z) :
  forall i packed,
    Forall isCode codes -> 0 <= i -> i + Z.of_nat (length codes) <= 15 ->
    0 <= packed < 2 ^ 31 -> packed / 4 ^ i = packValue codes ->
    extractCodes packed i (length codes) = codes.
Proof.
  induction codes as [|c rest IH]; intros i packed Hcodes Hi Hlen Hp Hq;
    [reflexivity|].
  inversion Hcodes as [|? ? Hc Hrest]; subst. unfold isCode in Hc.
  cbn [length] in *. rewrite Nat2Z.inj_succ in Hlen.
  cbn [extractCodes packValue] in *.
  rewrite code_at, Hq by lia. f_equal.
  - replace (c + 4 * packValue rest) with (c + packValue rest * 4) by ring.
    rewrite Z.mod_add by lia. apply Z.mod_small. lia.
  - apply IH; try assumption; try lia.
    rewrite Z.pow_add_r by lia. change (4 ^ 1) with 4.
    assert (H4 : 0 < 4 ^ i) by (apply Z.pow_pos_nonneg; lia).
    rewrite <- Z.div_div, Hq by lia.
    replace (c + 4 * packValue rest) with (c + packValue rest * 4) by ring.
    rewrite Z.div_add, (Z.div_small c 4) by lia. lia.
Qed.

(** ** Encoding never fails, and decoding undoes it *)

Lemma getWinnerCode_ok (m : option Matchup) :
  getWinnerCode m = Ok (winnerCode m) /\ 0 <= winnerCode m <= 2.
Proof.
  unfold winnerCode, getWinnerCode.
  destruct m as [m|]; [|split; [reflexivity | lia]].
  destruct (winner m) as [w|]; [|split; [reflexivity | lia]].
  destruct (sameTeamId w (homeTeam m)); [split; [reflexivity | lia]|].
  destruct (sameTeamId w (awayTeam m)); split; try reflexivity; lia.
Qed.

Lemma mapM_ok {A B : Type} (f : A -> Res B) (g : A -> B) (xs : list A) :
  (forall x, f x = Ok (g x)) -> mapM f xs = Ok (map g xs).
Proof.
  intros H. induction xs as [|x rest IH]; [reflexivity|].
  cbn [mapM map]. rewrite H, IH. reflexivity.
Qed.

Lemma winnerCodes_ok (bracket : BracketState) :
  winnerCodes bracket = Ok (pickCodes bracket).
Proof.
  unfold winnerCodes, pickCodes. apply mapM_ok.
  intros m. apply getWinnerCode_ok.
Qed.

Lemma pickCodes_length (bracket : BracketState) : length (pickCodes bracket) = 13%nat.
Proof. reflexivity. Qed.

Lemma pickCodes_isCode (bracket : BracketState) : Forall isCode (pickCodes bracket).
Proof.
  unfold pickCodes. apply Forall_map, Forall_forall. intros m _.
  pose proof (getWinnerCode_ok m) as [_ H]. unfold isCode. lia.
Qed.

Lemma packCodes_pickCodes (bracket : BracketState) :
  packCodes (pickCodes bracket) = packValue (pickCodes bracket) /\
  0 <= packValue (pickCodes bracket) < 2 ^ 26.
Proof.
  split.
  - apply packCodes_value; [rewrite pickCodes_length; lia | apply pickCodes_isCode].
  - pose proof (packValue_bound _ (pickCodes_isCode bracket)) as H.
    rewrite pickCodes_length in H. exact H.
Qed.

Lemma packedBytes_isByte (packed : Z) :
  0 <= packed < 2 ^ 31 -> Forall isByte (packedBytes packed).
Proof.
  intros Hp. rewrite packedBytes_small by assumption.
  unfold isByte. repeat constructor; apply Z.mod_pos_bound; lia.
Qed.

Lemma encodeBracketPicks_ok (bracket : BracketState) :
  encodeBracketPicks bracket =
    Ok (toBase64Url (base64 (packedBytes (packCodes (pickCodes bracket))))).
Proof.
  unfold encodeBracketPicks. rewrite winnerCodes_ok. cbn [bind].
  destruct (packCodes_pickCodes bracket) as [-> Hp].
  rewrite btoa_bytes; [reflexivity|].
  apply packedBytes_isByte. change (2 ^ 26) with 67108864 in Hp.
  change (2 ^ 31) with 2147483648. lia.
Qed.

Lemma decode_encode (bracket : BracketState) :
  exists token,
    encodeBracketPicks bracket = Ok token /\
    decodeBracketPicks token = Ok (pickCodes bracket).
Proof.
  eexists. split; [apply encodeBracketPicks_ok|].
  destruct (packCodes_pickCodes bracket) as [-> Hp].
  set (p := packValue (pickCodes bracket)) in *.
  change (2 ^ 26) with 67108864 in Hp.
  assert (Hp31 : 0 <= p < 2 ^ 31) by (change (2 ^ 31) with 2147483648; lia).
  rewrite packedBytes_small by assumption.
  assert (Hbyte : forall x, isByte (x mod 256)).
  { intros x. unfold isByte. apply Z.mod_pos_bound. lia. }
  unfold decodeBracketPicks.
  rewrite atob_token_4bytes by apply Hbyte.
  cbn [bind map].
  assert (Hu : forall x, toUint8 (x mod 256) = x mod 256).
  { intros x. apply Z.mod_small. apply Hbyte. }
  rewrite !Hu.
  rewrite unpackBytes_value.
  2:{ repeat (apply Forall_cons; [apply Hbyte|]). apply Forall_nil. }
  2:{ cbn [nth]. change (2 ^ 24) with 16777216. Z.div_mod_to_equations. lia. }
  cbn [nth].
  replace (p mod 256 + (p / 2 ^ 8) mod 256 * 2 ^ 8 + (p / 2 ^ 16) mod 256 * 2 ^ 16
           + (p / 2 ^ 24) mod 256 * 2 ^ 24) with p.
  2:{ change (2 ^ 8) with 256. change (2 ^ 16) with 65536. change (2 ^ 24) with 16777216.
      Z.div_mod_to_equations. lia. }
  f_equal.
  change 13%nat with (length (pickCodes bracket)).
  apply extractCodes_packValue.
  - apply pickCodes_isCode.
  - lia.
  - rewrite pickCodes_length. lia.
  - assumption.
  - apply Z.div_1_r.
Qed.

(** ** The platform model against the RFC 4648 test vectors *)

Example btoa_rfc4648 :
  map (fun s => btoa (charCodes s)) ["f"; "fo"; "foo"; "foob"; "fooba"; "foobar"]%string
  = map (fun s => Ok (tok s)) ["Zg=="; "Zm8="; "Zm9v"; "Zm9vYg=="; "Zm9vYmE="; "Zm9vYmFy"]%string.
Proof. reflexivity. Qed.

Example atob_rfc4648 :
  map (fun s => atob (tok s)) ["Zg=="; "Zm8="; "Zm9v"; "Zm9vYg=="; "Zm9vYmE="; "Zm9vYmFy"]%string
  = map (fun s => Ok (charCodes s)) ["f"; "fo"; "foo"; "foob"; "fooba"; "foobar"]%string.
Proof. reflexivity. Qed.

(** Forgiving decode: padding may be left out, whitespace is skipped, a
    length of 1 modulo 4 and a foreign character are refused. *)
Example atob_forgiving :
  atob (tok "Zg") = Ok (charCodes "f") /\
  atob (tok " Z g = = ") = Ok (charCodes "f") /\
  atob (tok "Zm9vY") = Throw InvalidCharacterError /\
  atob (tok "Zm-v") = Throw InvalidCharacterError /\
  atob (tok "Zg=") = Throw InvalidCharacterError.
Proof. repeat split. Qed.

(** ** C3: winner codes *)

Lemma sameTeamId_spec (w : Team) (slot : option Team) :
  sameTeamId w slot = true <-> idMatches w slot.
Proof.
  unfold sameTeamId, idMatches. destruct slot as [t|].
  - rewrite String.eqb_eq. split.
    + intros H. exists t. split; [reflexivity | assumption].
    + intros [t' [Ht H]]. inversion Ht. subst. assumption.
  - split; [discriminate|]. intros [t' [Ht _]]. discriminate.
Qed.

Lemma sameTeamId_false (w : Team) (slot : option Team) :
  ~ idMatches w slot -> sameTeamId w slot = false.
Proof.
  intros H. destruct (sameTeamId w slot) eqn:E; [|reflexivity].
  exfalso. apply H, sameTeamId_spec. assumption.
Qed.

(** C3.  The code of a matchup: no matchup or no winner gives 0; a winner
    whose id is the home team's id gives 1; otherwise a winner whose id is
    the away team's id gives 2; a winner that matches neither slot gives 0.
    In every case the derivation returns a code and does not throw. *)
Theorem getWinnerCode_cases (matchup : option Matchup) :
  (exists code, getWinnerCode matchup = Ok code /\ 0 <= code <= 2) /\
  (matchup = None -> getWinnerCode matchup = Ok 0) /\
  (forall m, matchup = Some m -> winner m = None -> getWinnerCode matchup = Ok 0) /\
  (forall m w, matchup = Some m -> winner m = Some w ->
     idMatches w (homeTeam m) -> getWinnerCode matchup = Ok 1) /\
  (forall m w, matchup = Some m -> winner m = Some w ->
     ~ idMatches w (homeTeam m) -> idMatches w (awayTeam m) ->
     getWinnerCode matchup = Ok 2) /\
  (forall m w, matchup = Some m -> winner m = Some w ->
     ~ idMatches w (homeTeam m) -> ~ idMatches w (awayTeam m) ->
     getWinnerCode matchup = Ok 0).
Proof.
  split; [exists (winnerCode matchup); apply getWinnerCode_ok|].
  split; [intros ->; reflexivity|].
  split; [intros m -> Hw; cbn [getWinnerCode]; rewrite Hw; reflexivity|].
  split; [|split].
  - intros m w -> Hw Hh. cbn [getWinnerCode]. rewrite Hw.
    apply sameTeamId_spec in Hh. rewrite Hh. reflexivity.
  - intros m w -> Hw Hh Ha. cbn [getWinnerCode]. rewrite Hw.
    rewrite (sameTeamId_false _ _ Hh).
    apply sameTeamId_spec in Ha. rewrite Ha. reflexivity.
  - intros m w -> Hw Hh Ha. cbn [getWinnerCode]. rewrite Hw.
    rewrite (sameTeamId_false _ _ Hh), (sameTeamId_false _ _ Ha). reflexivity.
Qed.

Lemma not_idMatches (w t : Team) :
  String.eqb (teamId w) (teamId t) = false -> ~ idMatches w (Some t).
Proof.
  intros H [t' [Ht Hid]]. inversion Ht. subst.
  apply String.eqb_neq in H. contradiction.
Qed.

(** The cases of C3 at the wild-card game of seeds 2 and 7: won by the
    home team, won by the away team, and recorded for a team that does
    not play in it. *)
Lemma getWinnerCode_cases_witness :
  getWinnerCode (Some (game27 (Some afc2))) = Ok 1 /\
  getWinnerCode (Some (game27 (Some afc7))) = Ok 2 /\
  getWinnerCode (Some (game27 (Some nfc3))) = Ok 0 /\
  getWinnerCode (Some (game27 None)) = Ok 0 /\
  getWinnerCode None = Ok 0.
Proof.
  split; [|split; [|split; [|split]]].
  - destruct (getWinnerCode_cases (Some (game27 (Some afc2)))) as (_ & _ & _ & H & _).
    apply (H (game27 (Some afc2)) afc2 eq_refl eq_refl).
    exists afc2. split; reflexivity.
  - destruct (getWinnerCode_cases (Some (game27 (Some afc7)))) as (_ & _ & _ & _ & H & _).
    apply (H (game27 (Some afc7)) afc7 eq_refl eq_refl).
    + apply not_idMatches. reflexivity.
    + exists afc7. split; reflexivity.
  - destruct (getWinnerCode_cases (Some (game27 (Some nfc3)))) as (_ & _ & _ & _ & _ & H).
    apply (H (game27 (Some nfc3)) nfc3 eq_refl eq_refl).
    + apply not_idMatches. reflexivity.
    + apply not_idMatches. reflexivity.
  - destruct (getWinnerCode_cases (Some (game27 None))) as (_ & _ & H & _).
    apply (H (game27 None) eq_refl eq_refl).
  - destruct (getWinnerCode_cases None) as (_ & H & _).
    apply (H eq_refl).
Defined.

(** ** C2: layout of the packed value *)

Lemma getAllMatchupsOrdered_slot (b : BracketState) (s : Slot) :
  validSlot s ->
  nth_error (getAllMatchupsOrdered b) (slotIndex s) = Some (matchupAt b s).
Proof.
  destruct s as [[|] k|[|] k|[|]|]; cbn [validSlot]; intros Hk;
    try reflexivity.
  all: first [ destruct k as [|[|[|k]]]; [reflexivity| reflexivity | reflexivity | lia]
             | destruct k as [|[|k]]; [reflexivity | reflexivity | lia] ].
Qed.

Lemma bits_above (p n k : Z) : 0 <= p < 2 ^ k -> k <= n -> Z.testbit p n = false.
Proof.
  intros Hp Hn.
  destruct (Z.eq_dec p 0) as [->|Hnz]; [apply Z.bits_0|].
  apply Z.bits_above_log2; [lia|].
  apply Z.lt_le_trans with k; [|assumption].
  apply Z.log2_lt_pow2; lia.
Qed.

Lemma packedBytes_testbit (packed : Z) (k : nat) (j : Z) :
  0 <= packed < 2 ^ 31 -> (k < 4)%nat -> 0 <= j < 8 ->
  Z.testbit (nth k (packedBytes packed) 0) j = Z.testbit packed (8 * Z.of_nat k + j).
Proof.
  intros Hp Hk Hj. rewrite packedBytes_small by assumption.
  change 256 with (2 ^ 8).
  destruct k as [|[|[|[|k]]]]; [| | | |lia]; cbn [nth];
    rewrite Z.mod_pow2_bits_low by lia.
  - f_equal; lia.
  - rewrite Z.div_pow2_bits by lia. f_equal; lia.
  - rewrite Z.div_pow2_bits by lia. f_equal; lia.
  - rewrite Z.div_pow2_bits by lia. f_equal; lia.
Qed.

(** C2.  Encoding takes the 13 winner codes in the fixed matchup order
    (AFC wild card 0-2, NFC wild card 3-5, AFC divisional 6-7, NFC
    divisional 8-9, AFC championship 10, NFC championship 11, Super Bowl
    12) and packs code [i] into bits [2i] and [2i+1] of a 32-bit value
    whose bits from 26 on are zero; byte [k] of the four bytes holds bits
    [8k] to [8k+7], so byte 0 holds bits 0 to 7; these bytes are what is
    rendered as the token. *)
Theorem encodeBracketPicks_layout (bracket : BracketState) :
  exists codes,
    winnerCodes bracket = Ok codes /\
    length codes = 13%nat /\
    (forall s, validSlot s ->
       getWinnerCode (matchupAt bracket s) = Ok (nth (slotIndex s) codes 0)) /\
    0 <= packCodes codes < 2 ^ 32 /\
    (forall (i : nat) (j : Z), (i < 13)%nat -> 0 <= j < 2 ->
       Z.testbit (packCodes codes) (Z.of_nat i * 2 + j) = Z.testbit (nth i codes 0) j) /\
    (forall n, 26 <= n -> Z.testbit (packCodes codes) n = false) /\
    length (packedBytes (packCodes codes)) = 4%nat /\
    (forall (k : nat) (j : Z), (k < 4)%nat -> 0 <= j < 8 ->
       Z.testbit (nth k (packedBytes (packCodes codes)) 0) j
       = Z.testbit (packCodes codes) (8 * Z.of_nat k + j)) /\
    encodeBracketPicks bracket
    = Ok (toBase64Url (base64 (packedBytes (packCodes codes)))).
Proof.
  exists (pickCodes bracket).
  destruct (packCodes_pickCodes bracket) as [Hv Hp].
  assert (Hp31 : 0 <= packCodes (pickCodes bracket) < 2 ^ 31).
  { rewrite Hv. change (2 ^ 26) with 67108864 in Hp.
    change (2 ^ 31) with 2147483648. lia. }
  split; [apply winnerCodes_ok|].
  split; [reflexivity|].
  split.
  { intros s Hs. unfold pickCodes.
    pose proof (getAllMatchupsOrdered_slot bracket s Hs) as Hnth.
    rewrite (nth_error_nth _ _ _ (map_nth_error winnerCode _ _ Hnth)).
    apply getWinnerCode_ok. }
  split; [change (2 ^ 31) with 2147483648 in Hp31; change (2 ^ 32) with 4294967296; lia|].
  split.
  { intros i j _ Hj. rewrite Hv. apply packValue_testbit; [apply pickCodes_isCode | assumption]. }
  split.
  { intros n Hn. rewrite Hv. apply bits_above with 26; assumption. }
  split; [reflexivity|].
  split.
  { intros k j Hk Hj. apply packedBytes_testbit; assumption. }
  apply encodeBracketPicks_ok.
Qed.

(** ** C8: the token *)

Lemma urlChar_isBase64UrlChar (s : Z) : isSextet s -> isBase64UrlChar (urlChar s) = true.
Proof.
  apply (allSextets_spec (fun s => isBase64UrlChar (urlChar s))).
  vm_compute. reflexivity.
Qed.

(** C8.  The token is the base64 rendering of the four packed bytes in
    which [+] is replaced by [-] and [/] by [_] and from which the trailing
    [=] are stripped.  It has 6 characters, hence at most 6, all of the
    base64url alphabet. *)
Theorem encodeBracketPicks_token (bracket : BracketState) :
  exists codes token,
    winnerCodes bracket = Ok codes /\
    encodeBracketPicks bracket = Ok token /\
    token = stripPadding
              (replaceAll "/" "_"
                 (replaceAll "+" "-" (base64 (packedBytes (packCodes codes))))) /\
    (length token <= 6)%nat /\
    length token = 6%nat /\
    forallb isBase64UrlChar token = true.
Proof.
  exists (pickCodes bracket). eexists.
  split; [apply winnerCodes_ok|].
  split; [apply encodeBracketPicks_ok|].
  split; [reflexivity|].
  destruct (packCodes_pickCodes bracket) as [Hv Hp].
  assert (Hp31 : 0 <= packCodes (pickCodes bracket) < 2 ^ 31).
  { rewrite Hv. change (2 ^ 26) with 67108864 in Hp.
    change (2 ^ 31) with 2147483648. lia. }
  rewrite packedBytes_small by assumption.
  assert (Hbyte : forall x, isByte (x mod 256)).
  { intros x. unfold isByte. apply Z.mod_pos_bound. lia. }
  rewrite toBase64Url_4bytes by apply Hbyte.
  rewrite length_map. cbn [sextetsOf4 length].
  split; [lia|]. split; [reflexivity|].
  apply forallb_forall. intros c Hc.
  apply in_map_iff in Hc. destruct Hc as [s [<- Hs]].
  apply urlChar_isBase64UrlChar.
  pose proof (sextetsOf4_range _ _ _ _ (Hbyte (packCodes (pickCodes bracket)))
                (Hbyte (packCodes (pickCodes bracket) / 2 ^ 8))
                (Hbyte (packCodes (pickCodes bracket) / 2 ^ 16))
                (Hbyte (packCodes (pickCodes bracket) / 2 ^ 24))) as Hr.
  rewrite Forall_forall in Hr. apply Hr. assumption.
Qed.

(** ** C9: the byte layout of a lone Super Bowl pick *)

Lemma undecided_code (m : option Matchup) : undecided m -> winnerCode m = 0.
Proof.
  unfold undecided, winnerCode, getWinnerCode.
  destruct m as [m|]; [|reflexivity]. intros ->. reflexivity.
Qed.

(** Rewrites the code of slot [s] to 0 from the hypothesis [Hund] that the
    slots other than the Super Bowl are undecided. *)
Ltac slot_undecided Hund s :=
  let E := fresh "E" in
  assert (E : winnerCode (matchupAt _ s) = 0)
    by (apply undecided_code, Hund; [simpl; lia | discriminate]);
  cbn [matchupAt conferenceOf] in E; rewrite E; clear E.

(** C9.  When the Super Bowl is decided for its home team and the twelve
    other matchups are undecided, the packed value has bit 24 set and
    every other bit clear (so bits 24-25 hold the code 01), and the four
    bytes are 0, 0, 0, 1. *)
Theorem encode_superBowl_home_only (bracket : BracketState) (sb : Matchup) (h : Team) :
  (forall s, validSlot s -> s <> SuperBowlSlot -> undecided (matchupAt bracket s)) ->
  superBowl bracket = Some sb ->
  homeTeam sb = Some h ->
  winner sb = Some h ->
  exists codes,
    winnerCodes bracket = Ok codes /\
    packCodes codes = 2 ^ 24 /\
    (forall n, 0 <= n -> Z.testbit (packCodes codes) n = (n =? 24)) /\
    packedBytes (packCodes codes) = [0; 0; 0; 1] /\
    encodeBracketPicks bracket = Ok (tok "AAAAAQ").
Proof.
  intros Hund Hsb Hh Hw.
  assert (Hcodes : pickCodes bracket = [0;0;0;0;0;0;0;0;0;0;0;0;1]).
  { unfold pickCodes, getAllMatchupsOrdered. cbn [map].
    repeat slot_undecided Hund (WildCardSlot AFC 0).
    repeat slot_undecided Hund (WildCardSlot AFC 1).
    repeat slot_undecided Hund (WildCardSlot AFC 2).
    repeat slot_undecided Hund (WildCardSlot NFC 0).
    repeat slot_undecided Hund (WildCardSlot NFC 1).
    repeat slot_undecided Hund (WildCardSlot NFC 2).
    repeat slot_undecided Hund (DivisionalSlot AFC 0).
    repeat slot_undecided Hund (DivisionalSlot AFC 1).
    repeat slot_undecided Hund (DivisionalSlot NFC 0).
    repeat slot_undecided Hund (DivisionalSlot NFC 1).
    repeat slot_undecided Hund (ChampionshipSlot AFC).
    repeat slot_undecided Hund (ChampionshipSlot NFC).
    rewrite Hsb. unfold winnerCode, getWinnerCode. rewrite Hw, Hh.
    cbn [sameTeamId]. rewrite String.eqb_refl. reflexivity. }
  exists (pickCodes bracket).
  split; [apply winnerCodes_ok|].
  rewrite encodeBracketPicks_ok, Hcodes.
  split; [reflexivity|].
  split.
  { intros n Hn. change (packCodes [0;0;0;0;0;0;0;0;0;0;0;0;1]) with (2 ^ 24).
    rewrite Z.pow2_bits_eqb by lia. apply Z.eqb_sym. }
  split; reflexivity.
Qed.

(** ** C5, C6, C7: applying codes round by round *)

Section Rounds.

Variable rules : PlayoffRules.

Lemma applyCode_defined (m : Matchup) (code : option Z) :
  applyCode (Some m) code = Ok (Some (applyCodeTo m code)).
Proof.
  unfold applyCode, applyCodeTo.
  destruct (codeIs code 0); [reflexivity|].
  destruct (codeIs code 1); reflexivity.
Qed.

Lemma applyPicks_rounds (codes : list Z) (owner : string) :
  let fresh := createInitialBracket rules owner in
  seeded fresh ->
  exists applied,
    applyPicksToFreshBracket rules codes owner = Ok applied /\
    map Some (wildCard (afc applied)) = appliedWildCard fresh AFC codes /\
    map Some (wildCard (nfc applied)) = appliedWildCard fresh NFC codes /\
    divisional (afc applied) = derivedDivisional rules fresh applied AFC codes /\
    divisional (nfc applied) = derivedDivisional rules fresh applied NFC codes /\
    championship (afc applied) = Some (derivedChampionship rules fresh applied AFC codes) /\
    championship (nfc applied) = Some (derivedChampionship rules fresh applied NFC codes) /\
    superBowl applied = Some (derivedSuperBowl fresh applied codes) /\
    userName applied = userName fresh /\
    name applied = name fresh /\
    isComplete applied =
      isBracketComplete rules
        (mkBracketState (afc applied) (nfc applied) (superBowl applied)
           (userName fresh) (name fresh) (isComplete fresh)).
Proof.
  intros fresh [Ha Hn]. unfold applyPicksToFreshBracket. fold fresh.
  destruct fresh as [[awc adiv ach] [nwc ndiv nch] sb un nm ic].
  cbn [afc nfc wildCard] in Ha, Hn.
  destruct awc as [|a0 [|a1 [|a2 arest]]]; try (cbn [length] in Ha; lia).
  destruct nwc as [|n0 [|n1 [|n2 nrest]]]; try (cbn [length] in Hn; lia).
  cbn [afc nfc wildCard at_ nth_error].
  rewrite !applyCode_defined. cbn [bind mapM deref].
  eexists. split; [reflexivity|].
  cbn. repeat split; reflexivity.
Qed.

End Rounds.

Section AppliedBracket.

Variable rules : PlayoffRules.

Lemma appliedWildCard_at (fresh applied : BracketState) (c : Conference)
    (codes : list Z) (k : nat) :
  map Some (wildCard (conferenceOf applied c)) = appliedWildCard fresh c codes ->
  (k < 3)%nat ->
  matchupAt applied (WildCardSlot c k)
  = option_map (fun m => applyCodeTo m (codeAt codes (WildCardSlot c k)))
      (matchupAt fresh (WildCardSlot c k)).
Proof.
  intros H Hk. cbn [matchupAt]. unfold at_.
  destruct (wildCard (conferenceOf applied c)) as [|w0 [|w1 [|w2 [|w3 ws]]]];
    try discriminate.
  unfold appliedWildCard in H. cbn [map] in H.
  injection H as H0 H1 H2.
  destruct k as [|[|[|k]]]; [| | |lia]; cbn [nth_error]; assumption.
Qed.

(** Every matchup of the returned bracket is some matchup to which the
    helper has applied the code of its slot. *)
Lemma applied_slot (fresh applied : BracketState) (codes : list Z) :
  map Some (wildCard (afc applied)) = appliedWildCard fresh AFC codes ->
  map Some (wildCard (nfc applied)) = appliedWildCard fresh NFC codes ->
  (forall c, divisional (conferenceOf applied c)
             = derivedDivisional rules fresh applied c codes) ->
  (forall c, championship (conferenceOf applied c)
             = Some (derivedChampionship rules fresh applied c codes)) ->
  superBowl applied = Some (derivedSuperBowl fresh applied codes) ->
  forall s, validSlot s ->
    exists m0, matchupAt applied s = Some (applyCodeTo m0 (codeAt codes s)).
Proof.
  intros Ha Hn Hd Hc Hs s Hv.
  destruct s as [c k|c k|c|].
  - cbn [validSlot] in Hv.
    assert (Hwc : map Some (wildCard (conferenceOf applied c))
                  = appliedWildCard fresh c codes) by (destruct c; assumption).
    pose proof (appliedWildCard_at fresh applied c codes k Hwc Hv) as Hk.
    destruct (matchupAt fresh (WildCardSlot c k)) as [m0|] eqn:E.
    + exists m0. exact Hk.
    + exfalso. cbn [option_map matchupAt] in Hk. unfold at_ in Hk.
      destruct (wildCard (conferenceOf applied c)) as [|w0 [|w1 [|w2 [|w3 ws]]]];
        try discriminate.
      destruct k as [|[|[|k]]]; [| | |lia]; discriminate.
  - cbn [validSlot] in Hv. cbn [matchupAt]. rewrite Hd. unfold derivedDivisional.
    destruct k as [|[|k]]; [| |lia]; eexists; reflexivity.
  - cbn [matchupAt]. rewrite Hc. eexists. reflexivity.
  - cbn [matchupAt]. rewrite Hs. eexists. reflexivity.
Qed.

Lemma applyCodeTo_teams (m : Matchup) (code : option Z) :
  homeTeam (applyCodeTo m code) = homeTeam m /\
  awayTeam (applyCodeTo m code) = awayTeam m.
Proof.
  unfold applyCodeTo. destruct (codeIs code 0); split; reflexivity.
Qed.

Lemma applyCodeTo_winner (m : Matchup) (code : option Z) :
  winner (applyCodeTo m code)
  = if codeIs code 0 then winner m
    else if codeIs code 1 then homeTeam m else awayTeam m.
Proof.
  unfold applyCodeTo. destruct (codeIs code 0); reflexivity.
Qed.

Lemma codeIs_true (code : option Z) (k : Z) : codeIs code k = true <-> code = Some k.
Proof.
  destruct code as [c|]; cbn [codeIs]; [|split; discriminate].
  rewrite Z.eqb_eq. split; [intros ->; reflexivity | intros H; injection H as ->; reflexivity].
Qed.

Lemma applyCodeTo_picked (f : option Matchup) (h a : option Team) (code : option Z) :
  derivedThenPicked f h a code (applyCodeTo (withTeams f h a) code).
Proof.
  unfold derivedThenPicked, applyCodeTo, withWinner.
  destruct (codeIs code 0) eqn:E0; [|destruct (codeIs code 1) eqn:E1].
  - apply codeIs_true in E0. subst code.
    destruct f as [f'|]; cbn; repeat split; intros; congruence.
  - apply codeIs_true in E1. subst code.
    destruct f as [f'|]; cbn; repeat split; intros; congruence.
  - assert (H0 : code <> Some 0) by (intros H; apply codeIs_true in H; congruence).
    assert (H1 : code <> Some 1) by (intros H; apply codeIs_true in H; congruence).
    destruct f as [f'|]; cbn; repeat split; intros; congruence.
Qed.

Lemma applyCodeTo_picked_own (f : Matchup) (code : option Z) :
  derivedThenPicked (Some f) (homeTeam f) (awayTeam f) code (applyCodeTo f code).
Proof.
  pose proof (applyCodeTo_picked (Some f) (homeTeam f) (awayTeam f) code) as H.
  destruct f as [i h a w]. exact H.
Qed.

(** C5.  The returned bracket is built round by round.  Each wild-card
    matchup has the id and the two teams of the fresh seeding, and the
    winner that its code names among these two teams.  Each divisional
    matchup of a conference has as team slots the pairing that the rules
    compute from the winners of that conference's three wild-card
    matchups as they stand in the returned bracket, that is with their
    codes applied, and as winner the one its own code names among these
    derived slots; the championship likewise from the winners of the two
    divisional matchups, and the Super Bowl from the winners of the two
    championships. *)
Theorem applyPicks_derives_each_round (codes : list Z) (owner : string) :
  let fresh := createInitialBracket rules owner in
  seeded fresh ->
  exists applied,
    applyPicksToFreshBracket rules codes owner = Ok applied /\
    (forall c, length (wildCard (conferenceOf applied c)) = 3%nat) /\
    (forall c k, (k < 3)%nat ->
       exists f m,
         matchupAt fresh (WildCardSlot c k) = Some f /\
         matchupAt applied (WildCardSlot c k) = Some m /\
         derivedThenPicked (Some f) (homeTeam f) (awayTeam f)
           (codeAt codes (WildCardSlot c k)) m) /\
    (forall c, exists d0 d1,
       divisional (conferenceOf applied c) = [d0; d1] /\
       let p := calculateDivisionalMatchups rules c
                  (map winner (wildCard (conferenceOf applied c))) in
       derivedThenPicked (matchupAt fresh (DivisionalSlot c 0))
         (home (matchup1 p)) (away (matchup1 p)) (codeAt codes (DivisionalSlot c 0)) d0 /\
       derivedThenPicked (matchupAt fresh (DivisionalSlot c 1))
         (home (matchup2 p)) (away (matchup2 p)) (codeAt codes (DivisionalSlot c 1)) d1) /\
    (forall c, exists m,
       championship (conferenceOf applied c) = Some m /\
       let p := calculateChampionshipMatchup rules
                  (map winner (divisional (conferenceOf applied c))) in
       derivedThenPicked (matchupAt fresh (ChampionshipSlot c))
         (home p) (away p) (codeAt codes (ChampionshipSlot c)) m) /\
    (exists m,
       superBowl applied = Some m /\
       derivedThenPicked (matchupAt fresh SuperBowlSlot)
         (winnerOf (championship (afc applied))) (winnerOf (championship (nfc applied)))
         (codeAt codes SuperBowlSlot) m).
Proof.
  intros fresh Hseed.
  destruct (applyPicks_rounds rules codes owner Hseed)
    as (applied & Hok & Ha & Hn & Had & Hnd & Hac & Hnc & Hsb & _).
  fold fresh in Ha, Hn, Had, Hnd, Hac, Hnc, Hsb.
  exists applied. split; [exact Hok|].
  assert (Hwc : forall c, map Some (wildCard (conferenceOf applied c))
                          = appliedWildCard fresh c codes) by (intros [|]; assumption).
  split.
  { intros c. pose proof (f_equal (@length _) (Hwc c)) as H.
    rewrite length_map in H. exact H. }
  split.
  { intros c k Hk.
    pose proof (appliedWildCard_at fresh applied c codes k (Hwc c) Hk) as E.
    destruct (matchupAt fresh (WildCardSlot c k)) as [f|] eqn:Ef.
    - exists f, (applyCodeTo f (codeAt codes (WildCardSlot c k))).
      split; [reflexivity|]. split; [exact E|]. apply applyCodeTo_picked_own.
    - exfalso. cbn [option_map matchupAt] in E. unfold at_ in E.
      pose proof (f_equal (@length _) (Hwc c)) as L.
      rewrite length_map in L. cbn in L.
      apply nth_error_None in E. lia. }
  split.
  { intros c.
    assert (Hd : divisional (conferenceOf applied c)
                 = derivedDivisional rules fresh applied c codes)
      by (destruct c; assumption).
    unfold derivedDivisional in Hd. cbv zeta in Hd.
    eexists. eexists. split; [exact Hd|].
    cbv zeta. split; apply applyCodeTo_picked. }
  split.
  { intros c.
    assert (Hc : championship (conferenceOf applied c)
                 = Some (derivedChampionship rules fresh applied c codes))
      by (destruct c; assumption).
    unfold derivedChampionship in Hc. cbv zeta in Hc.
    eexists. split; [exact Hc|]. cbv zeta. apply applyCodeTo_picked. }
  unfold derivedSuperBowl in Hsb.
  eexists. split; [exact Hsb|]. apply applyCodeTo_picked.
Qed.

(** C6.  A code 1 on a matchup whose home slot is null, or a code 2 on
    one whose away slot is null, leaves the matchup without a winner:
    the helper returns normally, and so does the whole operation on any
    list of codes, the lists of 13 codes among them. *)
Theorem applyPicks_null_slot (codes : list Z) (owner : string) :
  seeded (createInitialBracket rules owner) ->
  (forall (m : Matchup) (code : Z),
     (code = 1 /\ homeTeam m = None) \/ (code = 2 /\ awayTeam m = None) ->
     exists m', applyCode (Some m) (Some code) = Ok (Some m') /\ winner m' = None) /\
  exists applied,
    applyPicksToFreshBracket rules codes owner = Ok applied /\
    forall s m, validSlot s -> matchupAt applied s = Some m ->
      (codeAt codes s = Some 1 /\ homeTeam m = None) \/
      (codeAt codes s = Some 2 /\ awayTeam m = None) ->
      winner m = None.
Proof.
  intros Hseed. split.
  { intros m code H. exists (applyCodeTo m (Some code)).
    split; [apply applyCode_defined|].
    rewrite applyCodeTo_winner.
    destruct H as [[-> H]|[-> H]]; cbn [codeIs Z.eqb Pos.eqb]; assumption. }
  destruct (applyPicks_rounds rules codes owner Hseed)
    as (applied & Hok & Ha & Hn & Had & Hnd & Hac & Hnc & Hsb & _).
  exists applied. split; [exact Hok|].
  intros s m Hv Hm H.
  destruct (applied_slot _ applied codes Ha Hn) with (s := s) as [m0 Hm0];
    try assumption; try (intros [|]; assumption).
  rewrite Hm in Hm0. injection Hm0 as ->.
  rewrite applyCodeTo_winner.
  destruct (applyCodeTo_teams m0 (codeAt codes s)) as [Hh Haw].
  rewrite Hh, Haw in H.
  destruct H as [[-> H]|[-> H]]; cbn [codeIs Z.eqb Pos.eqb]; assumption.
Qed.

Lemma matchupAt_flag (a n : ConferenceBracket) (sb : option Matchup)
    (u u' nm nm' : string) (f f' : bool) (s : Slot) :
  matchupAt (mkBracketState a n sb u nm f) s
  = matchupAt (mkBracketState a n sb u' nm' f') s.
Proof. destruct s as [[|] k|[|] k|[|]|]; reflexivity. Qed.

(** C7.  The [isComplete] flag of the returned bracket is the value of
    [isBracketComplete] on the bracket with all 13 codes applied; with
    [isBracketComplete] true exactly when the 13 matchups have a winner,
    the flag is true exactly when the 13 matchups of the returned
    bracket have a winner. *)
Theorem applyPicks_isComplete (codes : list Z) (owner : string) :
  let fresh := createInitialBracket rules owner in
  seeded fresh ->
  (forall b, isBracketComplete rules b = true <->
             forall s, validSlot s -> hasWinner (matchupAt b s) = true) ->
  exists applied,
    applyPicksToFreshBracket rules codes owner = Ok applied /\
    isComplete applied =
      isBracketComplete rules
        (mkBracketState (afc applied) (nfc applied) (superBowl applied)
           (userName fresh) (name fresh) (isComplete fresh)) /\
    (isComplete applied = true <->
     forall s, validSlot s -> hasWinner (matchupAt applied s) = true).
Proof.
  intros fresh Hseed Hspec.
  destruct (applyPicks_rounds rules codes owner Hseed)
    as (applied & Hok & _ & _ & _ & _ & _ & _ & _ & _ & _ & Hflag).
  fold fresh in Hflag.
  exists applied. split; [exact Hok|]. split; [exact Hflag|].
  rewrite Hflag, Hspec.
  destruct applied as [a n sb u nm f]. cbn [afc nfc superBowl].
  split; intros H s Hv; specialize (H s Hv);
    rewrite (matchupAt_flag a n sb u (userName fresh) nm (name fresh) f (isComplete fresh)) in *;
    exact H.
Qed.

End AppliedBracket.

(** ** C1: round trip *)

Lemma samePicks_code (r m : Matchup) :
  samePicks r m -> getWinnerCode (Some r) = getWinnerCode (Some m).
Proof.
  intros (Hh & Ha & Hw). cbn [getWinnerCode]. rewrite Hh, Ha, Hw. reflexivity.
Qed.

Lemma sameTeamId_refl (w : Team) : sameTeamId w (Some w) = true.
Proof. cbn [sameTeamId]. apply String.eqb_refl. Qed.

(** Applying the code of a consistent matchup to an undecided matchup
    with the same teams gives back its winner. *)
Lemma pick_restored (m r0 : Matchup) :
  consistent m ->
  homeTeam r0 = homeTeam m -> awayTeam r0 = awayTeam m -> winner r0 = None ->
  samePicks (applyCodeTo r0 (Some (winnerCode (Some m)))) m.
Proof.
  intros [Hw Hid] Hh Ha Hr0.
  destruct (applyCodeTo_teams r0 (Some (winnerCode (Some m)))) as [Eh Ea].
  unfold samePicks. rewrite Eh, Ea, applyCodeTo_winner.
  split; [assumption|]. split; [assumption|].
  unfold winnerCode, getWinnerCode.
  destruct (winner m) as [w|] eqn:Ew; [|cbn; assumption].
  destruct Hw as [Hw|[Hw|Hw]]; [discriminate| |].
  - rewrite <- Hw, sameTeamId_refl. cbn. rewrite Hh. symmetry. assumption.
  - destruct (sameTeamId w (homeTeam m)) eqn:Eh'.
    + exfalso. apply sameTeamId_spec in Eh'. destruct Eh' as [h [Hh' Hid']].
      apply (Hid h w Hh' (eq_sym Hw)). symmetry. assumption.
    + rewrite <- Hw, sameTeamId_refl. cbn. rewrite Ha. symmetry. assumption.
Qed.

Lemma withTeams_fields (f : option Matchup) (h a : option Team) :
  homeTeam (withTeams f h a) = h /\ awayTeam (withTeams f h a) = a /\
  winner (withTeams f h a) = winnerOf f.
Proof. destruct f; repeat split. Qed.

Lemma derived_restored (m : Matchup) (f : option Matchup) (h a : option Team) :
  consistent m -> homeTeam m = h -> awayTeam m = a -> undecided f ->
  samePicks (applyCodeTo (withTeams f h a) (Some (winnerCode (Some m)))) m.
Proof.
  intros Hc Hh Ha Hf.
  destruct (withTeams_fields f h a) as (Eh & Ea & Ew).
  apply pick_restored; try congruence.
  rewrite Ew. destruct f as [f'|]; [exact Hf | reflexivity].
Qed.

Lemma codeAt_pickCodes (b : BracketState) (s : Slot) :
  validSlot s -> codeAt (pickCodes b) s = Some (winnerCode (matchupAt b s)).
Proof.
  intros Hv. unfold codeAt, at_, pickCodes.
  apply map_nth_error, getAllMatchupsOrdered_slot. assumption.
Qed.

Ltac slot_rewrite H s :=
  let E := fresh "E" in
  pose proof (H s ltac:(cbn; lia)) as E;
  cbn [matchupAt conferenceOf] in E; rewrite E; clear E.

Lemma pickCodes_ext (a b : BracketState) :
  (forall s, validSlot s -> winnerCode (matchupAt a s) = winnerCode (matchupAt b s)) ->
  pickCodes a = pickCodes b.
Proof.
  intros H. unfold pickCodes, getAllMatchupsOrdered. cbn [map].
  slot_rewrite H (WildCardSlot AFC 0). slot_rewrite H (WildCardSlot AFC 1).
  slot_rewrite H (WildCardSlot AFC 2). slot_rewrite H (WildCardSlot NFC 0).
  slot_rewrite H (WildCardSlot NFC 1). slot_rewrite H (WildCardSlot NFC 2).
  slot_rewrite H (DivisionalSlot AFC 0). slot_rewrite H (DivisionalSlot AFC 1).
  slot_rewrite H (DivisionalSlot NFC 0). slot_rewrite H (DivisionalSlot NFC 1).
  slot_rewrite H (ChampionshipSlot AFC). slot_rewrite H (ChampionshipSlot NFC).
  slot_rewrite H SuperBowlSlot.
  reflexivity.
Qed.

Section RoundTrip.

Variable rules : PlayoffRules.

Lemma valid_seeded (b : BracketState) :
  validBracket rules b -> seeded (createInitialBracket rules (userName b)).
Proof.
  intros Hv. split.
  - destruct (valid_wildCard rules b Hv AFC 2 ltac:(lia)) as (m & f & _ & Hf & _).
    cbn [matchupAt conferenceOf] in Hf. unfold at_ in Hf.
    assert (H : (2 < length (wildCard (afc (createInitialBracket rules (userName b)))))%nat)
      by (apply nth_error_Some; congruence).
    lia.
  - destruct (valid_wildCard rules b Hv NFC 2 ltac:(lia)) as (m & f & _ & Hf & _).
    cbn [matchupAt conferenceOf] in Hf. unfold at_ in Hf.
    assert (H : (2 < length (wildCard (nfc (createInitialBracket rules (userName b)))))%nat)
      by (apply nth_error_Some; congruence).
    lia.
Qed.

Section Slots.

Variables b applied : BracketState.
Hypothesis Hfresh : freshUndecided rules.
Hypothesis Hvalid : validBracket rules b.

Local Abbreviation fresh := (createInitialBracket rules (userName b)).
Local Abbreviation codes := (pickCodes b).

Hypothesis Hwc :
  forall c, map Some (wildCard (conferenceOf applied c)) = appliedWildCard fresh c codes.
Hypothesis Hdiv :
  forall c, divisional (conferenceOf applied c)
            = derivedDivisional rules fresh applied c codes.
Hypothesis Hchamp :
  forall c, championship (conferenceOf applied c)
            = Some (derivedChampionship rules fresh applied c codes).
Hypothesis Hsb : superBowl applied = Some (derivedSuperBowl fresh applied codes).

Lemma wildCard_restored (c : Conference) (k : nat) :
  (k < 3)%nat ->
  exists m r,
    matchupAt b (WildCardSlot c k) = Some m /\
    matchupAt applied (WildCardSlot c k) = Some r /\ samePicks r m.
Proof.
  intros Hk.
  destruct (valid_wildCard rules b Hvalid c k Hk) as (m & f & Hm & Hf & Hh & Ha).
  exists m, (applyCodeTo f (Some (winnerCode (Some m)))).
  split; [exact Hm|]. split.
  - rewrite (appliedWildCard_at fresh applied c codes k (Hwc c) Hk), Hf.
    cbn [option_map]. rewrite codeAt_pickCodes, Hm by exact Hk. reflexivity.
  - apply pick_restored; try (symmetry; assumption).
    + apply (valid_consistent rules b Hvalid (WildCardSlot c k)); assumption.
    + pose proof (Hfresh (userName b) (WildCardSlot c k) Hk) as Hu.
      rewrite Hf in Hu. exact Hu.
Qed.

Lemma wildCard_winners (c : Conference) :
  map winner (wildCard (conferenceOf applied c))
  = map winner (wildCard (conferenceOf b c)).
Proof.
  pose proof (valid_wildCard_length rules b Hvalid c) as Lb.
  pose proof (f_equal (@length _) (Hwc c)) as La.
  rewrite length_map in La. cbn in La.
  destruct (wildCard_restored c 0 ltac:(lia)) as (m0 & r0 & Hm0 & Hr0 & _ & _ & E0).
  destruct (wildCard_restored c 1 ltac:(lia)) as (m1 & r1 & Hm1 & Hr1 & _ & _ & E1).
  destruct (wildCard_restored c 2 ltac:(lia)) as (m2 & r2 & Hm2 & Hr2 & _ & _ & E2).
  cbn [matchupAt] in *. unfold at_ in *.
  destruct (wildCard (conferenceOf b c)) as [|x0 [|x1 [|x2 [|x3 xs]]]];
    try discriminate.
  destruct (wildCard (conferenceOf applied c)) as [|y0 [|y1 [|y2 [|y3 ys]]]];
    try discriminate.
  cbn [nth_error] in *.
  injection Hm0 as ->. injection Hm1 as ->. injection Hm2 as ->.
  injection Hr0 as ->. injection Hr1 as ->. injection Hr2 as ->.
  cbn [map]. rewrite E0, E1, E2. reflexivity.
Qed.

Lemma later_undecided (s : Slot) : validSlot s -> undecided (matchupAt fresh s).
Proof. intros Hv. apply Hfresh. exact Hv. Qed.

Lemma divisional_restored (c : Conference) :
  exists d0 d1 r0 r1,
    divisional (conferenceOf b c) = [d0; d1] /\
    divisional (conferenceOf applied c) = [r0; r1] /\
    samePicks r0 d0 /\ samePicks r1 d1.
Proof.
  destruct (valid_divisional rules b Hvalid c) as (d0 & d1 & Hd & Hteams).
  cbn zeta in Hteams. destruct Hteams as (H0h & H0a & H1h & H1a).
  exists d0, d1. eexists. eexists.
  split; [exact Hd|]. split; [apply Hdiv|].
  unfold derivedDivisional. rewrite wildCard_winners.
  rewrite !codeAt_pickCodes by (cbn; lia).
  cbn [matchupAt]. rewrite Hd. cbn [at_ nth_error].
  split; apply derived_restored; try assumption.
  - apply (valid_consistent rules b Hvalid (DivisionalSlot c 0)); [cbn; lia|].
    cbn [matchupAt]. rewrite Hd. reflexivity.
  - apply (later_undecided (DivisionalSlot c 0)). cbn. lia.
  - apply (valid_consistent rules b Hvalid (DivisionalSlot c 1)); [cbn; lia|].
    cbn [matchupAt]. rewrite Hd. reflexivity.
  - apply (later_undecided (DivisionalSlot c 1)). cbn. lia.
Qed.

Lemma divisional_winners (c : Conference) :
  map winner (divisional (conferenceOf applied c))
  = map winner (divisional (conferenceOf b c)).
Proof.
  destruct (divisional_restored c)
    as (d0 & d1 & r0 & r1 & -> & -> & (_ & _ & E0) & (_ & _ & E1)).
  cbn [map]. rewrite E0, E1. reflexivity.
Qed.

Lemma championship_restored (c : Conference) :
  exists m r,
    championship (conferenceOf b c) = Some m /\
    championship (conferenceOf applied c) = Some r /\ samePicks r m.
Proof.
  destruct (valid_championship rules b Hvalid c) as (m & Hm & Hteams).
  cbn zeta in Hteams. destruct Hteams as (Hh & Ha).
  exists m. eexists. split; [exact Hm|]. split; [apply Hchamp|].
  unfold derivedChampionship. rewrite divisional_winners.
  rewrite codeAt_pickCodes by exact I.
  cbn [matchupAt]. rewrite Hm.
  apply derived_restored; try assumption.
  - apply (valid_consistent rules b Hvalid (ChampionshipSlot c)); [exact I|].
    cbn [matchupAt]. exact Hm.
  - apply (later_undecided (ChampionshipSlot c)). exact I.
Qed.

Lemma superBowl_restored :
  exists m r,
    superBowl b = Some m /\ superBowl applied = Some r /\ samePicks r m.
Proof.
  destruct (valid_superBowl rules b Hvalid) as (m & Hm & Hh & Ha).
  exists m. eexists. split; [exact Hm|]. split; [apply Hsb|].
  unfold derivedSuperBowl.
  destruct (championship_restored AFC) as (ma & ra & Hma & Hra & _ & _ & Ea).
  destruct (championship_restored NFC) as (mn & rn & Hmn & Hrn & _ & _ & En).
  cbn [conferenceOf] in Hma, Hra, Hmn, Hrn.
  rewrite Hra, Hrn. rewrite Hma, Hmn in *. cbn [winnerOf] in *.
  rewrite codeAt_pickCodes by exact I.
  cbn [matchupAt]. rewrite Hm.
  apply derived_restored; try congruence.
  - apply (valid_consistent rules b Hvalid SuperBowlSlot); [exact I|]. exact Hm.
  - apply (later_undecided SuperBowlSlot). exact I.
Qed.

Lemma slots_restored (s : Slot) :
  validSlot s ->
  exists m r, matchupAt b s = Some m /\ matchupAt applied s = Some r /\ samePicks r m.
Proof.
  intros Hv. destruct s as [c k|c k|c|].
  - apply wildCard_restored. exact Hv.
  - destruct (divisional_restored c) as (d0 & d1 & r0 & r1 & Hd & Hr & S0 & S1).
    cbn [matchupAt]. rewrite Hd, Hr. cbn [validSlot] in Hv.
    destruct k as [|[|k]]; [| |lia].
    + exists d0, r0. repeat split; apply S0.
    + exists d1, r1. repeat split; apply S1.
  - apply championship_restored.
  - apply superBowl_restored.
Qed.

End Slots.

(** C1.  For a valid bracket, encoding its picks, decoding the token and
    applying the codes to a fresh bracket of the same owner succeeds, and
    the bracket obtained has, matchup by matchup in the fixed order, the
    same winner decision as the bracket encoded: each of the 13 matchups
    is there with the same home team, the same away team and the same
    winner (the home team, the away team or none), hence with the same
    winner code. *)
Theorem roundTrip (b : BracketState) :
  freshUndecided rules ->
  validBracket rules b ->
  exists token codes applied,
    encodeBracketPicks b = Ok token /\
    decodeBracketPicks token = Ok codes /\
    applyPicksToFreshBracket rules codes (userName b) = Ok applied /\
    (forall s, validSlot s ->
       exists m r,
         matchupAt b s = Some m /\ matchupAt applied s = Some r /\
         homeTeam r = homeTeam m /\ awayTeam r = awayTeam m /\
         winner r = winner m) /\
    (forall s, validSlot s ->
       getWinnerCode (matchupAt applied s) = getWinnerCode (matchupAt b s)) /\
    winnerCodes applied = winnerCodes b.
Proof.
  intros Hfresh Hvalid.
  destruct (decode_encode b) as (token & Henc & Hdec).
  destruct (applyPicks_rounds rules (pickCodes b) (userName b) (valid_seeded b Hvalid))
    as (applied & Hok & Ha & Hn & Had & Hnd & Hac & Hnc & Hsb & _).
  exists token, (pickCodes b), applied.
  split; [exact Henc|]. split; [exact Hdec|]. split; [exact Hok|].
  assert (Hsame : forall s, validSlot s ->
            exists m r, matchupAt b s = Some m /\ matchupAt applied s = Some r /\
                        samePicks r m).
  { intros s Hv.
    apply (slots_restored b applied Hfresh Hvalid); try assumption;
      intros [|]; assumption. }
  split; [exact Hsame|].
  assert (Hslots : forall s, validSlot s ->
            getWinnerCode (matchupAt applied s) = getWinnerCode (matchupAt b s)).
  { intros s Hv.
    destruct (Hsame s Hv) as (m & r & -> & -> & Hs).
    apply samePicks_code. exact Hs. }
  split; [exact Hslots|].
  rewrite !winnerCodes_ok. f_equal. apply pickCodes_ext.
  intros s Hv. unfold winnerCode. rewrite (Hslots s Hv). reflexivity.
Qed.

End RoundTrip.

(** ** C10 and C4: tokens that are short or malformed *)

Lemma toUint8_isByte (bytes : list Z) : Forall isByte (map toUint8 bytes).
Proof.
  apply Forall_map, Forall_forall. intros b _.
  unfold isByte, toUint8. apply Z.mod_pos_bound. lia.
Qed.

Lemma decodeBracketPicks_atob (token : list ascii) (binary : list Z) :
  atob (fromBase64Url token) = Ok binary ->
  decodeBracketPicks token
  = Ok (extractCodes (unpackBytes (map toUint8 binary)) 0 13).
Proof. intros H. unfold decodeBracketPicks. rewrite H. reflexivity. Qed.

(** Fewer than four bytes unpack to a value below [2 ^ (8 * length)]. *)
Lemma unpackBytes_short (bytes : list Z) :
  Forall isByte bytes -> (length bytes < 4)%nat ->
  0 <= unpackBytes bytes < 2 ^ (8 * Z.of_nat (length bytes)).
Proof.
  intros Hb Hl.
  rewrite unpackBytes_value; [|assumption|].
  2:{ rewrite nth_overflow by lia. lia. }
  unfold isByte in Hb.
  destruct bytes as [|b0 [|b1 [|b2 [|b3 rest]]]]; cbn [nth length] in *;
    [| | | | lia].
  - change (2 ^ (8 * Z.of_nat 0)) with 1. lia.
  - inversion Hb; subst.
    change (2 ^ (8 * Z.of_nat 1)) with 256. lia.
  - inversion Hb as [|? ? H0 Hb']; subst. inversion Hb'; subst.
    change (2 ^ (8 * Z.of_nat 2)) with 65536. change (2 ^ 8) with 256. lia.
  - inversion Hb as [|? ? H0 Hb']; subst. inversion Hb' as [|? ? H1 Hb'']; subst.
    inversion Hb''; subst.
    change (2 ^ (8 * Z.of_nat 3)) with 16777216.
    change (2 ^ 8) with 256. change (2 ^ 16) with 65536. lia.
Qed.

(** C10.  A token over the base64url alphabet whose base64 decoding gives
    fewer than 4 bytes is decoded without error to 13 codes, each between
    0 and 3, and every code whose two bits lie beyond the decoded bytes
    is 0. *)
Theorem decodeBracketPicks_short (token : list ascii) (bytes : list Z) :
  forallb isBase64UrlChar token = true ->
  atob (fromBase64Url token) = Ok bytes ->
  (length bytes < 4)%nat ->
  exists codes,
    decodeBracketPicks token = Ok codes /\
    length codes = 13%nat /\
    Forall (fun c => 0 <= c <= 3) codes /\
    forall i, (i < 13)%nat -> 8 * Z.of_nat (length bytes) <= 2 * Z.of_nat i ->
      nth i codes 0 = 0.
Proof.
  intros _ Hatob Hlen.
  eexists. split; [apply decodeBracketPicks_atob; exact Hatob|].
  split; [apply extractCodes_length|].
  split.
  { eapply Forall_impl; [|apply extractCodes_isCode].
    intros c Hc. unfold isCode in Hc. lia. }
  intros i Hi Hbeyond.
  pose proof (unpackBytes_short (map toUint8 bytes) (toUint8_isByte bytes)) as Hp.
  rewrite length_map in Hp. specialize (Hp Hlen).
  set (packed := unpackBytes (map toUint8 bytes)) in *.
  assert (Hpow : 2 ^ (8 * Z.of_nat (length bytes)) <= 4 ^ Z.of_nat i).
  { rewrite <- pow4 by lia. apply Z.pow_le_mono_r; lia. }
  assert (Hp31 : 0 <= packed < 2 ^ 31).
  { split; [lia|]. apply Z.lt_le_trans with (2 ^ (8 * Z.of_nat (length bytes))); [lia|].
    apply Z.pow_le_mono_r; lia. }
  rewrite extractCodes_nth by assumption.
  rewrite Z.add_0_l, code_at by lia.
  rewrite Z.div_small by lia. reflexivity.
Qed.

Lemma decodeBracketPicks_short_witness :
  exists codes,
    decodeBracketPicks (tok "Bg") = Ok codes /\
    length codes = 13%nat /\
    Forall (fun c => 0 <= c <= 3) codes /\
    forall i, (i < 13)%nat -> 8 * Z.of_nat 1 <= 2 * Z.of_nat i -> nth i codes 0 = 0.
Proof.
  apply (decodeBracketPicks_short (tok "Bg") [6]).
  - reflexivity.
  - reflexivity.
  - simpl. lia.
Defined.

Lemma foreignChar_undecodable (c : ascii) :
  foreignChar c = true -> undecodable (stdChar c) = true.
Proof.
  destruct c as [[|] [|] [|] [|] [|] [|] [|] [|]]; vm_compute;
    intros H; first [reflexivity | discriminate H].
Qed.

Lemma In_dropPad (c : ascii) (l : list ascii) :
  In c l -> Ascii.eqb c padChar = false -> In c (dropPad l).
Proof.
  intros Hin Hc. unfold dropPad.
  destruct (rev l) as [|x r] eqn:E; [assumption|].
  destruct (Ascii.eqb x padChar) eqn:Ex; [|assumption].
  rewrite <- in_rev. rewrite in_rev, E in Hin.
  destruct Hin as [->|Hin]; [congruence | assumption].
Qed.

Lemma sextets_undecodable (c : ascii) (l : list ascii) :
  In c l -> b64val c = None -> sextets l = None.
Proof.
  induction l as [|x rest IH]; intros Hin Hc; [contradiction|].
  cbn [sextets]. destruct Hin as [->|Hin].
  - rewrite Hc. reflexivity.
  - rewrite IH by assumption. destruct (b64val x); reflexivity.
Qed.

Lemma atob_undecodable (c : ascii) (data : list ascii) :
  In c data -> undecodable c = true -> atob data = Throw InvalidCharacterError.
Proof.
  intros Hin Hc. unfold undecodable in Hc.
  destruct (b64val c) eqn:Ev; [discriminate|].
  apply andb_prop in Hc. destruct Hc as [Hpad Hws].
  apply negb_true_iff in Hpad.
  unfold atob.
  set (d1 := filter (fun c => negb (isAsciiWhitespace c)) data).
  assert (H1 : In c d1) by (apply filter_In; split; assumption).
  set (d2 := if Z.of_nat (length d1) mod 4 =? 0 then dropPad (dropPad d1) else d1).
  assert (H2 : In c d2).
  { unfold d2. destruct (Z.of_nat (length d1) mod 4 =? 0); [|assumption].
    apply In_dropPad; [apply In_dropPad|]; assumption. }
  destruct (Z.of_nat (length d2) mod 4 =? 1); [reflexivity|].
  rewrite (sextets_undecodable c d2 H2 Ev). reflexivity.
Qed.

Lemma atob_error (data : list ascii) (e : JsError) :
  atob data = Throw e -> e = InvalidCharacterError.
Proof.
  unfold atob.
  destruct (Z.of_nat (length _) mod 4 =? 1); [congruence|].
  destruct (sextets _); [discriminate | congruence].
Qed.

(** The codes whose two bits lie beyond the bytes that [atob] returns
    are 0. *)
Lemma codes_beyond_bytes (bytes : list Z) (i : nat) :
  (i < 13)%nat -> 8 * Z.of_nat (length bytes) <= 2 * Z.of_nat i ->
  nth i (extractCodes (unpackBytes (map toUint8 bytes)) 0 13) 0 = 0.
Proof.
  intros Hi Hbeyond.
  assert (Hlen : (length bytes < 4)%nat) by lia.
  pose proof (unpackBytes_short (map toUint8 bytes) (toUint8_isByte bytes)) as Hp.
  rewrite length_map in Hp. specialize (Hp Hlen).
  set (packed := unpackBytes (map toUint8 bytes)) in *.
  assert (Hpow : 2 ^ (8 * Z.of_nat (length bytes)) <= 4 ^ Z.of_nat i).
  { rewrite <- pow4 by lia. apply Z.pow_le_mono_r; lia. }
  assert (Hp31 : 0 <= packed < 2 ^ 31).
  { split; [lia|]. apply Z.lt_le_trans with (2 ^ (8 * Z.of_nat (length bytes))); [lia|].
    apply Z.pow_le_mono_r; lia. }
  rewrite extractCodes_nth by assumption.
  rewrite Z.add_0_l, code_at by lia.
  rewrite Z.div_small by lia. reflexivity.
Qed.

(** C4, as the code has it.  Decoding fails exactly when [atob] fails on
    the re-substituted and re-padded token, with its
    [InvalidCharacterError]: it does so whenever the token holds a
    character that is outside the base64url alphabet and is none of [+],
    [/], [=] and ASCII whitespace.  Whatever the number of bytes that
    [atob] returns, fewer than 4 included, 13 codes between 0 and 3 are
    returned, the missing bytes reading as 0: every code whose two bits
    lie beyond the decoded bytes is 0.  A token on which decoding fails
    is never the encoding of a bracket. *)
Theorem decodeBracketPicks_errors (token : list ascii) :
  (existsb foreignChar token = true ->
   decodeBracketPicks token = Throw InvalidCharacterError) /\
  (forall bytes, atob (fromBase64Url token) = Ok bytes ->
     exists codes,
       decodeBracketPicks token = Ok codes /\ length codes = 13%nat /\
       Forall (fun c => 0 <= c <= 3) codes /\
       forall i, (i < 13)%nat -> 8 * Z.of_nat (length bytes) <= 2 * Z.of_nat i ->
         nth i codes 0 = 0) /\
  (forall e, decodeBracketPicks token = Throw e ->
     e = InvalidCharacterError /\
     atob (fromBase64Url token) = Throw InvalidCharacterError /\
     forall b, encodeBracketPicks b <> Ok token) /\
  (forall e, atob (fromBase64Url token) = Throw e ->
     decodeBracketPicks token = Throw InvalidCharacterError).
Proof.
  split; [|split; [|split]].
  - intros H. apply existsb_exists in H. destruct H as [c [Hin Hc]].
    unfold decodeBracketPicks.
    rewrite (atob_undecodable (stdChar c)); [reflexivity| |].
    + unfold fromBase64Url, restorePadding, replaceAll.
      apply in_or_app. left. rewrite map_map.
      apply in_map_iff. exists c. split; [reflexivity | assumption].
    + apply foreignChar_undecodable. assumption.
  - intros bytes H. eexists. split; [apply decodeBracketPicks_atob; exact H|].
    split; [apply extractCodes_length|].
    split.
    + eapply Forall_impl; [|apply extractCodes_isCode].
      intros c Hc. unfold isCode in Hc. lia.
    + intros i Hi Hbeyond. apply codes_beyond_bytes; assumption.
  - intros e H. unfold decodeBracketPicks in H.
    destruct (atob (fromBase64Url token)) as [binary|e'] eqn:E; [discriminate|].
    cbn [bind] in H. injection H as <-.
    pose proof (atob_error _ _ E) as ->.
    split; [reflexivity|]. split; [reflexivity|].
    intros b Hb. destruct (decode_encode b) as (token' & Henc & Hdec).
    rewrite Hb in Henc. injection Henc as <-.
    unfold decodeBracketPicks in Hdec. rewrite E in Hdec. discriminate.
  - intros e H. unfold decodeBracketPicks. rewrite H. cbn [bind].
    f_equal. apply (atob_error _ _ H).
Qed.

Lemma decodeBracketPicks_errors_witness :
  decodeBracketPicks (tok "AAAA!A") = Throw InvalidCharacterError /\
  (exists codes,
     decodeBracketPicks (tok "Bg") = Ok codes /\ length codes = 13%nat /\
     Forall (fun c => 0 <= c <= 3) codes /\
     forall i, (i < 13)%nat -> 8 * Z.of_nat 1 <= 2 * Z.of_nat i -> nth i codes 0 = 0) /\
  (forall b, encodeBracketPicks b <> Ok (tok "A")).
Proof.
  split; [|split].
  - apply (proj1 (decodeBracketPicks_errors (tok "AAAA!A"))). reflexivity.
  - apply (proj1 (proj2 (decodeBracketPicks_errors (tok "Bg"))) [6]). reflexivity.
  - apply (proj1 (proj2 (proj2 (decodeBracketPicks_errors (tok "A"))))
             InvalidCharacterError).
    reflexivity.
Defined.

(** The claim C4 fails as stated: the token [Bg] decodes to a single byte
    and the token [+/==], with three characters outside the base64url
    alphabet, decodes to one byte too; both are decoded to 13 codes
    without error. *)
Lemma decodeBracketPicks_accepts_short_and_foreign :
  (atob (fromBase64Url (tok "Bg")) = Ok [6] /\
   decodeBracketPicks (tok "Bg") = Ok [2; 1; 0; 0; 0; 0; 0; 0; 0; 0; 0; 0; 0]) /\
  (forallb isBase64UrlChar (tok "+/==") = false /\
   atob (fromBase64Url (tok "+/==")) = Ok [251] /\
   decodeBracketPicks (tok "+/==") = Ok [3; 2; 3; 3; 0; 0; 0; 0; 0; 0; 0; 0; 0]).
Proof. repeat split. Qed.

(** ** The model of lib/playoff-rules meets what the claims assume *)

Lemma specRules_seeded (owner : string) : seeded (createInitialBracket specRules owner).
Proof. unfold seeded. cbn. lia. Qed.

Lemma specRules_freshUndecided : freshUndecided specRules.
Proof.
  intros owner s Hv.
  destruct s as [[|] k|[|] k|[|]|]; cbn [validSlot] in Hv;
    try (destruct k as [|[|[|k]]]; [reflexivity | reflexivity | reflexivity | lia]);
    try (destruct k as [|[|k]]; [reflexivity | reflexivity | lia]);
    reflexivity.
Qed.

Lemma specRules_isBracketComplete (b : BracketState) :
  isBracketComplete specRules b = true <->
  forall s, validSlot s -> hasWinner (matchupAt b s) = true.
Proof.
  cbn [isBracketComplete specRules]. unfold specIsBracketComplete. split.
  - intros H s Hv. rewrite forallb_forall in H. apply H.
    eapply nth_error_In, getAllMatchupsOrdered_slot. exact Hv.
  - intros H. unfold getAllMatchupsOrdered. cbn [forallb].
    slot_rewrite H (WildCardSlot AFC 0). slot_rewrite H (WildCardSlot AFC 1).
    slot_rewrite H (WildCardSlot AFC 2). slot_rewrite H (WildCardSlot NFC 0).
    slot_rewrite H (WildCardSlot NFC 1). slot_rewrite H (WildCardSlot NFC 2).
    slot_rewrite H (DivisionalSlot AFC 0). slot_rewrite H (DivisionalSlot AFC 1).
    slot_rewrite H (DivisionalSlot NFC 0). slot_rewrite H (DivisionalSlot NFC 1).
    slot_rewrite H (ChampionshipSlot AFC). slot_rewrite H (ChampionshipSlot NFC).
    slot_rewrite H SuperBowlSlot.
    reflexivity.
Qed.

Example pickedBracket_codes : winnerCodes pickedBracket = Ok samplePicks.
Proof. reflexivity. Qed.

Example pickedBracket_token : encodeBracketPicks pickedBracket = Ok (tok "mZmZAQ").
Proof. reflexivity. Qed.

(** The re-seeding scenario of the design document: seeds 2, 3 and 4 win
    the AFC wild-card round; seed 1 then hosts seed 4 and seed 2 hosts
    seed 3. *)
Example reseeding_scenario :
  specCalculateDivisionalMatchups AFC
    [Some (seededTeam AFC 2); Some (seededTeam AFC 3); Some (seededTeam AFC 4)]
  = mkDivisionalPairings
      (mkPairing (Some (seededTeam AFC 1)) (Some (seededTeam AFC 4)))
      (mkPairing (Some (seededTeam AFC 2)) (Some (seededTeam AFC 3))).
Proof. reflexivity. Qed.

Ltac concrete_consistent :=
  split;
  [ vm_compute; auto
  | let h := fresh "h" in
    let a := fresh "a" in
    let Hh := fresh "Hh" in
    let Ha := fresh "Ha" in
    intros h a Hh Ha; vm_compute in Hh, Ha;
    injection Hh as <-; injection Ha as <-;
    apply String.eqb_neq; reflexivity ].

Lemma pickedBracket_valid : validBracket specRules pickedBracket.
Proof.
  constructor.
  - intros [|]; reflexivity.
  - intros c k Hk.
    destruct c; destruct k as [|[|[|k]]]; try lia;
      eexists; eexists; repeat split; reflexivity.
  - intros [|]; eexists; eexists; (split; [reflexivity|]); repeat split; reflexivity.
  - intros [|]; eexists; (split; [reflexivity|]); split; reflexivity.
  - eexists. split; [reflexivity|]. split; reflexivity.
  - intros s m Hv Hm.
    destruct s as [c k|c k|c|]; cbn [validSlot] in Hv.
    + destruct c; destruct k as [|[|[|k]]]; try lia;
        vm_compute in Hm; injection Hm as <-; concrete_consistent.
    + destruct c; destruct k as [|[|k]]; try lia;
        vm_compute in Hm; injection Hm as <-; concrete_consistent.
    + destruct c; vm_compute in Hm; injection Hm as <-; concrete_consistent.
    + vm_compute in Hm; injection Hm as <-; concrete_consistent.
Qed.

Lemma roundTrip_witness :
  exists token codes applied,
    encodeBracketPicks pickedBracket = Ok token /\
    decodeBracketPicks token = Ok codes /\
    applyPicksToFreshBracket specRules codes (userName pickedBracket) = Ok applied /\
    (forall s, validSlot s ->
       exists m r,
         matchupAt pickedBracket s = Some m /\ matchupAt applied s = Some r /\
         homeTeam r = homeTeam m /\ awayTeam r = awayTeam m /\
         winner r = winner m) /\
    (forall s, validSlot s ->
       getWinnerCode (matchupAt applied s) = getWinnerCode (matchupAt pickedBracket s)) /\
    winnerCodes applied = winnerCodes pickedBracket.
Proof.
  apply (roundTrip specRules pickedBracket).
  - exact specRules_freshUndecided.
  - exact pickedBracket_valid.
Defined.

Lemma encodeBracketPicks_layout_witness :
  exists codes,
    winnerCodes pickedBracket = Ok codes /\
    getWinnerCode (matchupAt pickedBracket SuperBowlSlot) = Ok (nth 12 codes 0) /\
    getWinnerCode (matchupAt pickedBracket (DivisionalSlot NFC 1)) = Ok (nth 9 codes 0) /\
    Z.testbit (packCodes codes) 24 = Z.testbit (nth 12 codes 0) 0 /\
    Z.testbit (packCodes codes) 25 = Z.testbit (nth 12 codes 0) 1 /\
    Z.testbit (packCodes codes) 26 = false /\
    Z.testbit (nth 3 (packedBytes (packCodes codes)) 0) 0 = Z.testbit (packCodes codes) 24.
Proof.
  destruct (encodeBracketPicks_layout pickedBracket)
    as (codes & Hcodes & _ & Hslot & _ & Hbits & Hhigh & _ & Hbytes & _).
  exists codes.
  split; [exact Hcodes|].
  split; [apply (Hslot SuperBowlSlot); exact I|].
  split; [apply (Hslot (DivisionalSlot NFC 1)); simpl; lia|].
  split; [apply (Hbits 12%nat 0); lia|].
  split; [apply (Hbits 12%nat 1); lia|].
  split; [apply Hhigh; lia|].
  apply (Hbytes 3%nat 0); lia.
Defined.

Lemma applyPicks_derives_each_round_witness :
  exists applied,
    applyPicksToFreshBracket specRules samplePicks "Ann" = Ok applied /\
    (exists d0 d1,
       divisional (afc applied) = [d0; d1] /\
       homeTeam d0 = Some (seededTeam AFC 1) /\ awayTeam d0 = Some (seededTeam AFC 6) /\
       winner d0 = Some (seededTeam AFC 1) /\
       homeTeam d1 = Some (seededTeam AFC 2) /\ awayTeam d1 = Some (seededTeam AFC 4) /\
       winner d1 = Some (seededTeam AFC 4)) /\
    (exists m,
       superBowl applied = Some m /\
       homeTeam m = winnerOf (championship (afc applied)) /\
       awayTeam m = winnerOf (championship (nfc applied)) /\
       winner m = winnerOf (championship (afc applied))).
Proof.
  destruct (applyPicks_derives_each_round specRules samplePicks "Ann")
    as (applied & Hok & _ & _ & Hdiv & _ & Hsb).
  { unfold seeded. simpl. lia. }
  exists applied. split; [exact Hok|].
  assert (E : applied = pickedBracket).
  { unfold pickedBracket. rewrite Hok. reflexivity. }
  split.
  - destruct (Hdiv AFC) as (d0 & d1 & Hd & Hp).
    exists d0, d1. split; [exact Hd|].
    cbv zeta in Hp. rewrite E in Hp.
    destruct Hp as ((_ & Hh0 & Ha0 & _ & Hw0 & _) & (_ & Hh1 & Ha1 & _ & _ & Hw1)).
    rewrite Hh0, Ha0, Hh1, Ha1, (Hw0 eq_refl).
    rewrite Hw1 by (vm_compute; discriminate).
    vm_compute. repeat split; reflexivity.
  - destruct Hsb as (m & Hm & _ & Hh & Ha & _ & Hw & _).
    exists m. split; [exact Hm|]. split; [exact Hh|]. split; [exact Ha|].
    apply Hw. reflexivity.
Defined.

Lemma applyPicks_null_slot_witness :
  exists applied,
    applyPicksToFreshBracket specRules homeOnlyPicks "Ann" = Ok applied /\
    forall s m, validSlot s -> matchupAt applied s = Some m ->
      (codeAt homeOnlyPicks s = Some 1 /\ homeTeam m = None) \/
      (codeAt homeOnlyPicks s = Some 2 /\ awayTeam m = None) ->
      winner m = None.
Proof.
  apply (proj2 (applyPicks_null_slot specRules homeOnlyPicks "Ann"
                  ltac:(unfold seeded; simpl; lia))).
Defined.

Example homeOnlyPicks_codes :
  match applyPicksToFreshBracket specRules homeOnlyPicks "Ann" with
  | Ok applied =>
      winnerCodes applied = Ok [1; 1; 0; 1; 1; 1; 0; 0; 1; 2; 0; 2; 0]
      /\ isComplete applied = false
  | Throw _ => False
  end.
Proof. split; reflexivity. Qed.

Lemma applyPicks_isComplete_witness :
  exists applied,
    applyPicksToFreshBracket specRules samplePicks "Ann" = Ok applied /\
    isComplete applied =
      isBracketComplete specRules
        (mkBracketState (afc applied) (nfc applied) (superBowl applied)
           (userName (createInitialBracket specRules "Ann"))
           (name (createInitialBracket specRules "Ann"))
           (isComplete (createInitialBracket specRules "Ann"))) /\
    (isComplete applied = true <->
     forall s, validSlot s -> hasWinner (matchupAt applied s) = true).
Proof.
  apply (applyPicks_isComplete specRules samplePicks "Ann").
  - unfold seeded. simpl. lia.
  - exact specRules_isBracketComplete.
Defined.

Lemma superBowlOnly_undecided (s : Slot) :
  validSlot s -> s <> SuperBowlSlot -> undecided (matchupAt superBowlOnly s).
Proof.
  intros Hv Hs. destruct s as [c k|c k|c|]; cbn [validSlot] in Hv.
  - destruct c; destruct k as [|[|[|k]]]; try lia; reflexivity.
  - destruct c; destruct k as [|[|k]]; try lia; reflexivity.
  - destruct c; reflexivity.
  - contradiction.
Qed.

Lemma encode_superBowl_home_only_witness :
  exists codes,
    winnerCodes superBowlOnly = Ok codes /\
    packCodes codes = 2 ^ 24 /\
    (forall n, 0 <= n -> Z.testbit (packCodes codes) n = (n =? 24)) /\
    packedBytes (packCodes codes) = [0; 0; 0; 1] /\
    encodeBracketPicks superBowlOnly = Ok (tok "AAAAAQ").
Proof.
  apply (encode_superBowl_home_only superBowlOnly
           (mkMatchup (Some "super-bowl"%string) (Some (seededTeam AFC 1))
              (Some (seededTeam NFC 1)) (Some (seededTeam AFC 1)))
           (seededTeam AFC 1)).
  - exact superBowlOnly_undecided.
  - reflexivity.
  - reflexivity.
  - reflexivity.
Defined.

(** * Further properties of the codec *)

(** ** Tokens and codes *)

(** X1.  For every bracket, valid or not, encoding succeeds and decoding
    the token gives back the 13 winner codes of the bracket, in the fixed
    order. *)
Theorem decode_of_encode (bracket : BracketState) :
  exists token codes,
    encodeBracketPicks bracket = Ok token /\
    winnerCodes bracket = Ok codes /\
    decodeBracketPicks token = Ok codes /\
    length codes = 13%nat /\
    Forall (fun c => 0 <= c <= 2) codes.
Proof.
  destruct (decode_encode bracket) as (token & Henc & Hdec).
  exists token, (pickCodes bracket).
  split; [exact Henc|]. split; [apply winnerCodes_ok|]. split; [exact Hdec|].
  split; [apply pickCodes_length|].
  unfold pickCodes. apply Forall_map, Forall_forall. intros m _.
  apply getWinnerCode_ok.
Qed.

(** X2.  Two brackets have the same token exactly when they have the same
    13 winner codes: the token carries the picks and nothing else. *)
Theorem token_eq_iff_codes_eq (b1 b2 : BracketState) :
  encodeBracketPicks b1 = encodeBracketPicks b2 <-> winnerCodes b1 = winnerCodes b2.
Proof.
  split.
  - intros H.
    destruct (decode_encode b1) as (t1 & He1 & Hd1).
    destruct (decode_encode b2) as (t2 & He2 & Hd2).
    rewrite He1, He2 in H. injection H as ->.
    rewrite !winnerCodes_ok. congruence.
  - intros H. rewrite !winnerCodes_ok in H.
    apply (f_equal (fun r => match r with Ok c => c | Throw _ => [] end)) in H.
    rewrite !encodeBracketPicks_ok. cbv beta iota in H. rewrite H. reflexivity.
Qed.

Lemma token_eq_iff_codes_eq_witness :
  encodeBracketPicks pickedBracket
  = encodeBracketPicks
      (mkBracketState (afc pickedBracket) (nfc pickedBracket) (superBowl pickedBracket)
         "Bob" "Another name" false).
Proof.
  apply (proj2 (token_eq_iff_codes_eq pickedBracket _)). reflexivity.
Defined.

Lemma fromBase64Url_map (token : list ascii) :
  fromBase64Url token = restorePadding (map stdChar token).
Proof.
  unfold fromBase64Url, replaceAll. rewrite map_map. reflexivity.
Qed.

Lemma isBase64UrlChar_facts (c : ascii) :
  isBase64UrlChar c = true ->
  (exists v, b64val (stdChar c) = Some v) /\
  isAsciiWhitespace (stdChar c) = false /\
  Ascii.eqb (stdChar c) padChar = false.
Proof.
  intros Hc.
  assert (H : urlCharOk c = true).
  { destruct c as [[|] [|] [|] [|] [|] [|] [|] [|]]; vm_compute; reflexivity. }
  unfold urlCharOk in H. rewrite Hc in H. cbn [negb orb] in H.
  apply andb_prop in H. destruct H as [H Hpad].
  apply andb_prop in H. destruct H as [Hval Hws].
  apply negb_true_iff in Hpad. apply negb_true_iff in Hws.
  repeat split; try assumption.
  destruct (b64val (stdChar c)) as [v|]; [exists v; reflexivity | discriminate].
Qed.

Lemma dropPad_clean (l : list ascii) :
  Forall (fun c => Ascii.eqb c padChar = false) l -> dropPad l = l.
Proof.
  intros H. unfold dropPad.
  destruct (rev l) as [|x r] eqn:E; [reflexivity|].
  assert (Hx : In x l) by (apply in_rev; rewrite E; left; reflexivity).
  rewrite Forall_forall in H. rewrite (H x Hx). reflexivity.
Qed.

Lemma sextets_total (l : list ascii) :
  Forall (fun c => exists v, b64val c = Some v) l -> exists vs, sextets l = Some vs.
Proof.
  induction 1 as [|c rest [v Hv] _ [vs IH]]; [exists []; reflexivity|].
  exists (v :: vs). cbn [sextets]. rewrite Hv, IH. reflexivity.
Qed.

Lemma sextets_snoc_pad (l : list ascii) : sextets (l ++ [padChar]) = None.
Proof.
  apply (sextets_undecodable padChar); [|reflexivity].
  apply in_or_app. right. left. reflexivity.
Qed.

(** X3.  A token over the base64url alphabet is refused exactly when its
    length is 1 modulo 4; with any other length, the empty token
    included, it is decoded to codes. *)
Theorem decodeBracketPicks_base64url (token : list ascii) :
  forallb isBase64UrlChar token = true ->
  (Z.of_nat (length token) mod 4 = 1 ->
   decodeBracketPicks token = Throw InvalidCharacterError) /\
  (Z.of_nat (length token) mod 4 <> 1 ->
   exists codes, decodeBracketPicks token = Ok codes).
Proof.
  intros Halpha. rewrite forallb_forall in Halpha.
  set (l := map stdChar token).
  assert (Hlen : length l = length token) by apply length_map.
  assert (Hval : Forall (fun c => exists v, b64val c = Some v) l).
  { apply Forall_map, Forall_forall. intros c Hc.
    apply (isBase64UrlChar_facts c (Halpha c Hc)). }
  assert (Hws : Forall (fun c => isAsciiWhitespace c = false) l).
  { apply Forall_map, Forall_forall. intros c Hc.
    apply (isBase64UrlChar_facts c (Halpha c Hc)). }
  assert (Hpad : Forall (fun c => Ascii.eqb c padChar = false) l).
  { apply Forall_map, Forall_forall. intros c Hc.
    apply (isBase64UrlChar_facts c (Halpha c Hc)). }
  destruct (sextets_total l Hval) as [vs Hvs].
  assert (Hfilter : forall p,
            filter (fun c => negb (isAsciiWhitespace c)) (l ++ repeat padChar p)
            = l ++ repeat padChar p).
  { intros p. apply filter_no_whitespace, Forall_app. split; [assumption|].
    apply Forall_forall. intros c Hc. apply repeat_spec in Hc. subst. reflexivity. }
  assert (Hatob : atob (fromBase64Url token)
                  = if Z.of_nat (length token) mod 4 =? 1
                    then Throw InvalidCharacterError else Ok (sextetBytes vs)).
  { rewrite fromBase64Url_map. fold l. unfold restorePadding, atob.
    rewrite Hfilter, length_app, repeat_length, Hlen.
    assert (Hr : 0 <= Z.of_nat (length token) mod 4 < 4)
      by (apply Z.mod_pos_bound; lia).
    set (n := Z.of_nat (length token)) in *.
    assert (Hcase : n mod 4 = 0 \/ n mod 4 = 1 \/ n mod 4 = 2 \/ n mod 4 = 3) by lia.
    destruct Hcase as [E|[E|[E|E]]]; rewrite E.
    - change (Z.to_nat ((4 - 0) mod 4)) with 0%nat.
      rewrite Nat.add_0_r. fold n. rewrite E. cbn [Z.eqb repeat].
      rewrite app_nil_r, !(dropPad_clean l) by assumption.
      rewrite Hlen. fold n. rewrite E. cbn [Z.eqb]. rewrite Hvs. reflexivity.
    - change (Z.to_nat ((4 - 1) mod 4)) with 3%nat.
      replace (Z.of_nat (length token + 3) mod 4) with 0
        by (rewrite Nat2Z.inj_add; fold n; change (Z.of_nat 3) with 3;
            Z.div_mod_to_equations; lia).
      cbn [Z.eqb Pos.eqb repeat].
      change [padChar; padChar; padChar] with ([padChar] ++ [padChar] ++ [padChar]).
      rewrite !app_assoc, !dropPad_snoc.
      rewrite length_app, Hlen. cbn [length].
      replace (Z.of_nat (length token + 1) mod 4 =? 1) with false
        by (symmetry; apply Z.eqb_neq; rewrite Nat2Z.inj_add; fold n;
            change (Z.of_nat 1) with 1; Z.div_mod_to_equations; lia).
      rewrite sextets_snoc_pad. reflexivity.
    - change (Z.to_nat ((4 - 2) mod 4)) with 2%nat.
      replace (Z.of_nat (length token + 2) mod 4) with 0
        by (rewrite Nat2Z.inj_add; fold n; change (Z.of_nat 2) with 2;
            Z.div_mod_to_equations; lia).
      cbn [Z.eqb Pos.eqb repeat].
      change [padChar; padChar] with ([padChar] ++ [padChar]).
      rewrite !app_assoc, !dropPad_snoc.
      rewrite Hlen. fold n. rewrite E. cbn [Z.eqb Pos.eqb]. rewrite Hvs. reflexivity.
    - change (Z.to_nat ((4 - 3) mod 4)) with 1%nat.
      replace (Z.of_nat (length token + 1) mod 4) with 0
        by (rewrite Nat2Z.inj_add; fold n; change (Z.of_nat 1) with 1;
            Z.div_mod_to_equations; lia).
      cbn [Z.eqb Pos.eqb repeat].
      rewrite dropPad_snoc, (dropPad_clean l) by assumption.
      rewrite Hlen. fold n. rewrite E. cbn [Z.eqb Pos.eqb]. rewrite Hvs. reflexivity. }
  unfold decodeBracketPicks. rewrite Hatob. split; intros H.
  - rewrite H. reflexivity.
  - apply Z.eqb_neq in H. rewrite H. cbn [bind]. eexists. reflexivity.
Qed.

Lemma decodeBracketPicks_base64url_witness :
  decodeBracketPicks (tok "mZmZA") = Throw InvalidCharacterError /\
  (exists codes, decodeBracketPicks (tok "") = Ok codes) /\
  (exists codes, decodeBracketPicks (tok "mZmZAQmZ") = Ok codes).
Proof.
  split; [|split].
  - apply (proj1 (decodeBracketPicks_base64url (tok "mZmZA") eq_refl)). reflexivity.
  - apply (proj2 (decodeBracketPicks_base64url (tok "") eq_refl)). discriminate.
  - apply (proj2 (decodeBracketPicks_base64url (tok "mZmZAQmZ") eq_refl)). discriminate.
Defined.

Lemma unpackBytes_firstn (bytes : list Z) :
  unpackBytes (firstn 4 bytes) = unpackBytes bytes.
Proof.
  unfold unpackBytes, at_.
  destruct bytes as [|b0 [|b1 [|b2 [|b3 rest]]]]; reflexivity.
Qed.

(** X4.  Whenever decoding returns, it returns exactly 13 codes between 0
    and 3, and they depend on the first four decoded bytes only: a token
    whose decoded bytes start with the same four bytes decodes to the
    same codes. *)
Theorem decodeBracketPicks_codes (token : list ascii) (codes : list Z) :
  decodeBracketPicks token = Ok codes ->
  length codes = 13%nat /\
  Forall (fun c => 0 <= c <= 3) codes /\
  forall token' bytes bytes',
    atob (fromBase64Url token) = Ok bytes ->
    atob (fromBase64Url token') = Ok bytes' ->
    firstn 4 bytes = firstn 4 bytes' ->
    decodeBracketPicks token' = Ok codes.
Proof.
  intros Hdec.
  destruct (atob (fromBase64Url token)) as [binary|e] eqn:E.
  2:{ unfold decodeBracketPicks in Hdec. rewrite E in Hdec. discriminate. }
  rewrite (decodeBracketPicks_atob token binary E) in Hdec.
  apply (f_equal (fun r => match r with Ok c => c | Throw _ => [] end)) in Hdec.
  cbv beta iota in Hdec. subst codes.
  split; [apply extractCodes_length|]. split.
  - eapply Forall_impl; [|apply extractCodes_isCode].
    intros c Hc. unfold isCode in Hc. lia.
  - intros token' bytes bytes' Hb Hb' Hfirst. injection Hb as <-.
    rewrite (decodeBracketPicks_atob token' bytes' Hb'). do 2 f_equal.
    rewrite <- (unpackBytes_firstn (map toUint8 binary)).
    rewrite <- (unpackBytes_firstn (map toUint8 bytes')).
    rewrite !firstn_map, Hfirst. reflexivity.
Qed.

Lemma decodeBracketPicks_codes_witness :
  length samplePicks = 13%nat /\
  Forall (fun c => 0 <= c <= 3) samplePicks /\
  decodeBracketPicks (tok "mZmZAQmZ") = Ok samplePicks.
Proof.
  destruct (decodeBracketPicks_codes (tok "mZmZAQ") samplePicks eq_refl)
    as (Hlen & Hrange & Hsame).
  split; [exact Hlen|]. split; [exact Hrange|].
  apply (Hsame (tok "mZmZAQmZ") [153; 153; 153; 1] [153; 153; 153; 1; 9; 153]);
    reflexivity.
Defined.

(** ** Codes that are out of range or missing *)

Lemma codeIs_canonical (code : option Z) (k : Z) :
  k = 0 \/ k = 1 ->
  codeIs (Some (canonicalCode code)) k = codeIs code k.
Proof.
  intros Hk. unfold canonicalCode.
  destruct (codeIs code 0) eqn:E0.
  - destruct code as [c|]; [|discriminate].
    cbn [codeIs] in *. apply Z.eqb_eq in E0. subst c. reflexivity.
  - destruct (codeIs code 1) eqn:E1.
    + destruct code as [c|]; [|discriminate].
      cbn [codeIs] in *. apply Z.eqb_eq in E1. subst c. reflexivity.
    + destruct Hk as [->| ->]; [rewrite E0 | rewrite E1]; reflexivity.
Qed.

Lemma applyCodeTo_canonical (m : Matchup) (code : option Z) :
  applyCodeTo m (Some (canonicalCode code)) = applyCodeTo m code.
Proof.
  unfold applyCodeTo. rewrite !codeIs_canonical by lia. reflexivity.
Qed.

Lemma applyCode_canonical (m : option Matchup) (code : option Z) :
  applyCode m (Some (canonicalCode code)) = applyCode m code.
Proof.
  unfold applyCode. rewrite !codeIs_canonical by lia. reflexivity.
Qed.

(** X5.  Only the tests "is 0" and "is 1" are made on a code: every other
    value, the reserved 3 included, acts as 2 (away team), a code missing
    from a list shorter than 13 acts as 2 as well, and entries after the
    13th are ignored.  Applying a list of codes is applying its 13
    canonical codes. *)
Theorem applyPicks_canonical (rules : PlayoffRules) (codes : list Z) (owner : string) :
  applyPicksToFreshBracket rules codes owner
  = applyPicksToFreshBracket rules (canonicalCodes codes) owner
  /\ length (canonicalCodes codes) = 13%nat
  /\ Forall (fun c => 0 <= c <= 2) (canonicalCodes codes)
  /\ forall i c, nth_error codes i = Some c -> (i < 13)%nat -> 0 <= c <= 2 ->
       nth_error (canonicalCodes codes) i = Some c.
Proof.
  split; [|split; [|split]].
  - unfold applyPicksToFreshBracket, canonicalCodes.
    cbn [map at_ nth_error].
    do 6 (rewrite applyCode_canonical;
          match goal with
          | |- bind ?r _ = bind ?r _ => destruct r; [cbn [bind] | reflexivity]
          end).
    do 2 match goal with
         | |- bind ?r _ = bind ?r _ => destruct r; [cbn [bind] | reflexivity]
         end.
    cbv zeta. rewrite !applyCodeTo_canonical. reflexivity.
  - reflexivity.
  - unfold canonicalCodes. apply Forall_map, Forall_forall. intros i _.
    unfold canonicalCode.
    destruct (codeIs (at_ codes i) 0); [lia|].
    destruct (codeIs (at_ codes i) 1); lia.
  - intros i c Hc Hi Hr. unfold canonicalCodes.
    assert (Hcanon : canonicalCode (at_ codes i) = c).
    { unfold canonicalCode, at_. rewrite Hc. cbn [codeIs].
      destruct (c =? 0) eqn:E0; [apply Z.eqb_eq in E0; lia|].
      destruct (c =? 1) eqn:E1; [apply Z.eqb_eq in E1; lia|].
      apply Z.eqb_neq in E0, E1. lia. }
    do 13 (destruct i as [|i]; [cbn [map nth_error]; rewrite Hcanon; reflexivity|]).
    lia.
Qed.

Lemma applyPicks_canonical_witness :
  applyPicksToFreshBracket specRules [3; 1; 7] "Ann"
  = applyPicksToFreshBracket specRules [2; 1; 2; 2; 2; 2; 2; 2; 2; 2; 2; 2; 2] "Ann"
  /\ nth_error (canonicalCodes [3; 1; 7]) 1 = Some 1.
Proof.
  destruct (applyPicks_canonical specRules [3; 1; 7] "Ann") as (Heq & _ & _ & Hnth).
  split; [exact Heq|].
  apply (Hnth 1%nat 1 eq_refl); lia.
Defined.

(** ** The bracket that applying codes returns *)

Section AppliedInvariants.

Variable rules : PlayoffRules.

Lemma applied_slot_undecided (fresh applied : BracketState) (codes : list Z) :
  (forall s, validSlot s -> undecided (matchupAt fresh s)) ->
  map Some (wildCard (afc applied)) = appliedWildCard fresh AFC codes ->
  map Some (wildCard (nfc applied)) = appliedWildCard fresh NFC codes ->
  (forall c, divisional (conferenceOf applied c)
             = derivedDivisional rules fresh applied c codes) ->
  (forall c, championship (conferenceOf applied c)
             = Some (derivedChampionship rules fresh applied c codes)) ->
  superBowl applied = Some (derivedSuperBowl fresh applied codes) ->
  forall s, validSlot s ->
    exists m0,
      matchupAt applied s = Some (applyCodeTo m0 (codeAt codes s)) /\ winner m0 = None.
Proof.
  intros Hfresh Ha Hn Hd Hc Hs s Hv.
  assert (Hlater : forall f h a, undecided f -> winner (withTeams f h a) = None).
  { intros f h a Hf. destruct (withTeams_fields f h a) as (_ & _ & ->).
    destruct f; [exact Hf | reflexivity]. }
  destruct s as [c k|c k|c|].
  - cbn [validSlot] in Hv.
    assert (Hwc : map Some (wildCard (conferenceOf applied c))
                  = appliedWildCard fresh c codes) by (destruct c; assumption).
    pose proof (appliedWildCard_at fresh applied c codes k Hwc Hv) as Hk.
    pose proof (Hfresh (WildCardSlot c k) Hv) as Hu.
    destruct (matchupAt fresh (WildCardSlot c k)) as [m0|] eqn:E.
    + exists m0. split; [exact Hk | exact Hu].
    + exfalso. cbn [option_map matchupAt] in Hk. unfold at_ in Hk.
      destruct (wildCard (conferenceOf applied c)) as [|w0 [|w1 [|w2 [|w3 ws]]]];
        try discriminate.
      destruct k as [|[|[|k]]]; [| | |lia]; discriminate.
  - cbn [validSlot] in Hv. cbn [matchupAt]. rewrite Hd. unfold derivedDivisional.
    destruct k as [|[|k]]; [| |lia]; eexists; (split; [reflexivity|]);
      apply Hlater, Hfresh; cbn; lia.
  - cbn [matchupAt]. rewrite Hc. eexists. split; [reflexivity|].
    apply Hlater, (Hfresh (ChampionshipSlot c)). exact I.
  - cbn [matchupAt]. rewrite Hs. eexists. split; [reflexivity|].
    apply Hlater, (Hfresh SuperBowlSlot). exact I.
Qed.

Lemma applyPicks_slots (codes : list Z) (owner : string) :
  freshUndecided rules ->
  seeded (createInitialBracket rules owner) ->
  exists applied,
    applyPicksToFreshBracket rules codes owner = Ok applied /\
    forall s, validSlot s ->
      exists m0,
        matchupAt applied s = Some (applyCodeTo m0 (codeAt codes s)) /\ winner m0 = None.
Proof.
  intros Hfresh Hseed.
  destruct (applyPicks_rounds rules codes owner Hseed)
    as (applied & Hok & Ha & Hn & Had & Hnd & Hac & Hnc & Hsb & _).
  exists applied. split; [exact Hok|].
  apply (applied_slot_undecided (createInitialBracket rules owner)); try assumption.
  - intros s Hv. apply Hfresh. exact Hv.
  - intros [|]; assumption.
  - intros [|]; assumption.
Qed.

(** X8.  In the bracket returned for a list of codes, the code read back
    from a matchup whose two teams have different ids is 0 where the code
    applied is 0, 1 where it is 1 and the home slot is filled, 2 where it
    is any other value and the away slot is filled, and 0 where the slot
    named by the code is null. *)
Theorem applyPicks_read_back (codes : list Z) (owner : string) :
  freshUndecided rules ->
  seeded (createInitialBracket rules owner) ->
  exists applied,
    applyPicksToFreshBracket rules codes owner = Ok applied /\
    forall s m, validSlot s -> matchupAt applied s = Some m -> distinctTeams m ->
      getWinnerCode (Some m) = Ok (readBack (codeAt codes s) m).
Proof.
  intros Hfresh Hseed.
  destruct (applyPicks_slots codes owner Hfresh Hseed) as (applied & Hok & Hslots).
  exists applied. split; [exact Hok|].
  intros s m Hv Hm Hdist.
  destruct (Hslots s Hv) as (m0 & Hm0 & Hw0).
  rewrite Hm in Hm0. injection Hm0 as ->.
  unfold distinctTeams in Hdist.
  destruct (applyCodeTo_teams m0 (codeAt codes s)) as [Eh Ea].
  rewrite Eh, Ea in Hdist.
  unfold readBack, getWinnerCode. rewrite applyCodeTo_winner, Eh, Ea.
  destruct (codeIs (codeAt codes s) 0); [rewrite Hw0; reflexivity|].
  destruct (codeIs (codeAt codes s) 1).
  - destruct (homeTeam m0) as [h|]; [|reflexivity].
    rewrite sameTeamId_refl. reflexivity.
  - destruct (awayTeam m0) as [a|]; [|reflexivity].
    rewrite sameTeamId_refl.
    destruct (homeTeam m0) as [h|] eqn:Hh; [|reflexivity].
    cbn [sameTeamId].
    destruct (String.eqb (teamId a) (teamId h)) eqn:E; [|reflexivity].
    apply String.eqb_eq in E. exfalso.
    apply (Hdist h a eq_refl eq_refl). symmetry. exact E.
Qed.

(** X6.  The bracket returned for a list of codes keeps the invariants of
    a bracket state, provided the two teams of each of its games have
    different ids: wild-card teams of the fresh seeding, team slots of the
    later rounds given by the rules from the winners of the round before,
    and a winner that is one of the two teams. *)
Theorem applyPicks_valid (codes : list Z) (owner : string) :
  freshUndecided rules ->
  seeded (createInitialBracket rules owner) ->
  userName (createInitialBracket rules owner) = owner ->
  exists applied,
    applyPicksToFreshBracket rules codes owner = Ok applied /\
    ((forall s m, validSlot s -> matchupAt applied s = Some m -> distinctTeams m) ->
     validBracket rules applied).
Proof.
  intros Hfresh Hseed Hname.
  destruct (applyPicks_rounds rules codes owner Hseed)
    as (applied & Hok & Ha & Hn & Had & Hnd & Hac & Hnc & Hsb & Hu & _).
  set (fresh := createInitialBracket rules owner) in *.
  assert (Hwc : forall c, map Some (wildCard (conferenceOf applied c))
                          = appliedWildCard fresh c codes) by (intros [|]; assumption).
  assert (Hdiv : forall c, divisional (conferenceOf applied c)
                           = derivedDivisional rules fresh applied c codes)
    by (intros [|]; assumption).
  assert (Hchamp : forall c, championship (conferenceOf applied c)
                             = Some (derivedChampionship rules fresh applied c codes))
    by (intros [|]; assumption).
  assert (Hslots : forall s, validSlot s ->
            exists m0, matchupAt applied s = Some (applyCodeTo m0 (codeAt codes s))
                       /\ winner m0 = None).
  { apply (applied_slot_undecided fresh); try assumption.
    intros s Hv. apply Hfresh. exact Hv. }
  exists applied. split; [exact Hok|]. intros Hdist.
  constructor.
  - intros c. pose proof (f_equal (@length _) (Hwc c)) as H.
    rewrite length_map in H. exact H.
  - intros c k Hk. rewrite Hu, Hname. fold fresh.
    pose proof (appliedWildCard_at fresh applied c codes k (Hwc c) Hk) as Hat.
    destruct (Hslots (WildCardSlot c k) Hk) as (m0 & Hm0 & _).
    destruct (matchupAt fresh (WildCardSlot c k)) as [f|] eqn:E.
    + exists (applyCodeTo f (codeAt codes (WildCardSlot c k))), f.
      split; [exact Hat|]. split; [reflexivity|]. apply applyCodeTo_teams.
    + rewrite Hm0 in Hat. discriminate.
  - intros c. rewrite Hdiv. unfold derivedDivisional.
    eexists. eexists. split; [reflexivity|]. cbn zeta.
    repeat match goal with
           | |- _ /\ _ => split
           | |- context [homeTeam (applyCodeTo ?m ?c)] =>
               rewrite (proj1 (applyCodeTo_teams m c))
           | |- context [awayTeam (applyCodeTo ?m ?c)] =>
               rewrite (proj2 (applyCodeTo_teams m c))
           end; apply withTeams_fields.
  - intros c. rewrite Hchamp. unfold derivedChampionship.
    eexists. split; [reflexivity|]. cbn zeta.
    split; [rewrite (proj1 (applyCodeTo_teams _ _)) | rewrite (proj2 (applyCodeTo_teams _ _))];
      apply withTeams_fields.
  - rewrite Hsb. unfold derivedSuperBowl.
    eexists. split; [reflexivity|].
    split; [rewrite (proj1 (applyCodeTo_teams _ _)) | rewrite (proj2 (applyCodeTo_teams _ _))];
      apply withTeams_fields.
  - intros s m Hv Hm. split; [|exact (Hdist s m Hv Hm)].
    destruct (Hslots s Hv) as (m0 & Hm0 & Hw0).
    rewrite Hm in Hm0. injection Hm0 as ->.
    destruct (applyCodeTo_teams m0 (codeAt codes s)) as [-> ->].
    rewrite applyCodeTo_winner.
    destruct (codeIs (codeAt codes s) 0); [left; exact Hw0|].
    destruct (codeIs (codeAt codes s) 1); [right; left | right; right]; reflexivity.
Qed.

Lemma applied_zero_code (codes : list Z) (owner : string) (s : Slot) :
  freshUndecided rules ->
  seeded (createInitialBracket rules owner) ->
  (forall b, isBracketComplete rules b = true <->
             forall s, validSlot s -> hasWinner (matchupAt b s) = true) ->
  validSlot s ->
  codeAt codes s = Some 0 ->
  exists applied,
    applyPicksToFreshBracket rules codes owner = Ok applied /\
    winnerOf (matchupAt applied s) = None /\
    isComplete applied = false.
Proof.
  intros Hfresh Hseed Hspec Hv Hcode.
  destruct (applyPicks_slots codes owner Hfresh Hseed) as (applied & Hok & Hslots).
  destruct (applyPicks_rounds rules codes owner Hseed)
    as (applied' & Hok' & _ & _ & _ & _ & _ & _ & _ & _ & _ & Hflag).
  rewrite Hok in Hok'. injection Hok' as <-.
  exists applied. split; [exact Hok|].
  destruct (Hslots s Hv) as (m0 & Hm0 & Hw0).
  assert (Hwin : winnerOf (matchupAt applied s) = None).
  { rewrite Hm0. cbn [winnerOf]. rewrite applyCodeTo_winner, Hcode. exact Hw0. }
  split; [exact Hwin|].
  destruct (isComplete applied) eqn:E; [|reflexivity].
  exfalso. symmetry in Hflag. pose proof (proj1 (Hspec _) Hflag s Hv) as Hall.
  clear Hflag. rename Hall into Hflag.
  clear E. rename Hflag into E.
  destruct applied as [a n sb u nm f]. cbn [afc nfc superBowl] in E.
  rewrite (matchupAt_flag a n sb _ u _ nm _ f) in E.
  unfold hasWinner in E. unfold winnerOf in Hwin.
  destruct (matchupAt _ s) as [m|]; [|discriminate].
  rewrite Hwin in E. discriminate.
Qed.

(** X7.  A code 0 leaves its matchup without a winner, so a list of codes
    that holds a 0 among its first 13 never gives a complete bracket
    (with [isBracketComplete] true exactly when the 13 matchups have a
    winner). *)
Theorem applyPicks_incomplete (codes : list Z) (owner : string) (s : Slot) :
  freshUndecided rules ->
  seeded (createInitialBracket rules owner) ->
  (forall b, isBracketComplete rules b = true <->
             forall s, validSlot s -> hasWinner (matchupAt b s) = true) ->
  validSlot s ->
  codeAt codes s = Some 0 ->
  exists applied,
    applyPicksToFreshBracket rules codes owner = Ok applied /\
    winnerOf (matchupAt applied s) = None /\
    isComplete applied = false.
Proof. apply applied_zero_code. Qed.

End AppliedInvariants.

Lemma applyPicks_read_back_witness :
  exists applied,
    applyPicksToFreshBracket specRules homeOnlyPicks "Ann" = Ok applied /\
    forall s m, validSlot s -> matchupAt applied s = Some m -> distinctTeams m ->
      getWinnerCode (Some m) = Ok (readBack (codeAt homeOnlyPicks s) m).
Proof.
  apply (applyPicks_read_back specRules homeOnlyPicks "Ann").
  - exact specRules_freshUndecided.
  - unfold seeded. simpl. lia.
Defined.

Lemma applyPicks_valid_witness :
  exists applied,
    applyPicksToFreshBracket specRules samplePicks "Ann" = Ok applied /\
    validBracket specRules applied.
Proof.
  destruct (applyPicks_valid specRules samplePicks "Ann"
              specRules_freshUndecided (specRules_seeded "Ann") eq_refl)
    as (applied & Hok & Hvalid).
  exists applied. split; [exact Hok|]. apply Hvalid.
  assert (Happlied : applied = pickedBracket)
    by (unfold pickedBracket; rewrite Hok; reflexivity).
  subst applied. intros s m Hv Hm.
  exact (proj2 (valid_consistent specRules pickedBracket pickedBracket_valid s m Hv Hm)).
Defined.

Lemma applyPicks_incomplete_witness :
  exists applied,
    applyPicksToFreshBracket specRules homeOnlyPicks "Ann" = Ok applied /\
    winnerOf (matchupAt applied (WildCardSlot AFC 2)) = None /\
    isComplete applied = false.
Proof.
  apply (applyPicks_incomplete specRules homeOnlyPicks "Ann" (WildCardSlot AFC 2)).
  - exact specRules_freshUndecided.
  - unfold seeded. simpl. lia.
  - exact specRules_isBracketComplete.
  - simpl. lia.
  - reflexivity.
Defined.

(** * Properties of the share URL and of the callers of the codec *)

(** ** The share URL *)

Lemma urlencode_base64url_char (c : ascii) :
  isBase64UrlChar c = true -> flat_map urlencodeByte (utf8Bytes c) = [c].
Proof.
  destruct c as [[|] [|] [|] [|] [|] [|] [|] [|]]; vm_compute;
    intros H; first [reflexivity | discriminate H].
Qed.

Lemma urlencode_base64url (token : list ascii) :
  forallb isBase64UrlChar token = true ->
  urlencode (string_of_list_ascii token) = string_of_list_ascii token.
Proof.
  intros H. unfold urlencode. rewrite list_ascii_of_string_of_list_ascii. f_equal.
  induction token as [|c rest IH]; [reflexivity|].
  cbn [forallb] in H. apply andb_prop in H. destruct H as [Hc Hrest].
  cbn [flat_map]. rewrite flat_map_app, urlencode_base64url_char by assumption.
  cbn [app]. rewrite <- IH at 2 by assumption. reflexivity.
Qed.

Lemma urlencode_chars_of (c : ascii) :
  forallb urlencodedChar (flat_map urlencodeByte (utf8Bytes c)) = true.
Proof.
  destruct c as [[|] [|] [|] [|] [|] [|] [|] [|]]; vm_compute; reflexivity.
Qed.

Lemma urlencode_chars (s : string) :
  forallb urlencodedChar (list_ascii_of_string (urlencode s)) = true.
Proof.
  unfold urlencode. rewrite list_ascii_of_string_of_list_ascii.
  induction (list_ascii_of_string s) as [|c rest IH]; [reflexivity|].
  cbn [flat_map]. rewrite flat_map_app, forallb_app, urlencode_chars_of, IH.
  reflexivity.
Qed.

Lemma token_of_bracket (bracket : BracketState) :
  exists token,
    encodeBracketPicks bracket = Ok token /\
    forallb isBase64UrlChar token = true /\
    length token = 6%nat /\
    decodeBracketPicks token = Ok (pickCodes bracket).
Proof.
  destruct (decode_encode bracket) as (token & Henc & Hdec).
  exists token. split; [exact Henc|].
  rewrite encodeBracketPicks_ok in Henc.
  apply (f_equal (fun r => match r with Ok t => t | Throw _ => [] end)) in Henc.
  cbv beta iota in Henc.
  destruct (packCodes_pickCodes bracket) as [Hv Hp].
  assert (Hp31 : 0 <= packCodes (pickCodes bracket) < 2 ^ 31).
  { rewrite Hv. change (2 ^ 26) with 67108864 in Hp.
    change (2 ^ 31) with 2147483648. lia. }
  rewrite packedBytes_small in Henc by assumption.
  assert (Hbyte : forall x, isByte (x mod 256)).
  { intros x. unfold isByte. apply Z.mod_pos_bound. lia. }
  rewrite toBase64Url_4bytes in Henc by apply Hbyte.
  split; [|split; [|exact Hdec]].
  - subst token. apply forallb_forall. intros c Hc.
    apply in_map_iff in Hc. destruct Hc as [x [<- Hx]].
    apply urlChar_isBase64UrlChar.
    pose proof (sextetsOf4_range _ _ _ _ (Hbyte (packCodes (pickCodes bracket)))
                  (Hbyte (packCodes (pickCodes bracket) / 2 ^ 8))
                  (Hbyte (packCodes (pickCodes bracket) / 2 ^ 16))
                  (Hbyte (packCodes (pickCodes bracket) / 2 ^ 24))) as Hr.
    rewrite Forall_forall in Hr. apply Hr. assumption.
  - subst token. rewrite length_map. reflexivity.
Qed.

Lemma shareParams_ok (bracket : BracketState) :
  exists token,
    encodeBracketPicks bracket = Ok token /\
    forallb isBase64UrlChar token = true /\
    length token = 6%nat /\
    decodeBracketPicks token = Ok (pickCodes bracket) /\
    shareParams bracket
    = Ok (if nonEmpty (userName bracket)
          then [("b"%string, string_of_list_ascii token);
                ("name"%string, userName bracket)]
          else [("b"%string, string_of_list_ascii token)]).
Proof.
  destruct (token_of_bracket bracket) as (token & Henc & Halpha & Hlen & Hdec).
  exists token. repeat (split; [assumption|]).
  unfold shareParams. rewrite Henc. cbn [bind].
  destruct (nonEmpty (userName bracket)); reflexivity.
Qed.

Lemma append_empty_r (s : string) : (s ++ "")%string = s.
Proof. induction s as [|c s IH]; [reflexivity|]. cbn. rewrite IH. reflexivity. Qed.

Arguments urlencode : simpl never.

(** X9.  The share URL of a bracket is the origin (or nothing where there
    is no window) followed by [/?b=] and the 6 characters of the token as
    they are, without any percent-encoding, and then, when the owner name
    is not empty, by [&name=] and the encoded owner name; the encoded
    name holds only ASCII letters and digits and [*], [-], [.], [_],
    [+], [%], so it cannot add a parameter to the URL. *)
Theorem generateShareableUrl_form (origin : option string) (bracket : BracketState) :
  exists token,
    encodeBracketPicks bracket = Ok token /\
    length token = 6%nat /\
    generateShareableUrl origin bracket
    = Ok ((match origin with Some o => o | None => EmptyString end)
          ++ "/?b=" ++ string_of_list_ascii token
          ++ (if String.eqb (userName bracket) ""
              then EmptyString
              else "&name=" ++ urlencode (userName bracket)))%string /\
    forallb urlencodedChar (list_ascii_of_string (urlencode (userName bracket))) = true.
Proof.
  destruct (shareParams_ok bracket) as (token & Henc & Halpha & Hlen & _ & Hparams).
  exists token. split; [exact Henc|]. split; [exact Hlen|].
  split; [|apply urlencode_chars].
  unfold generateShareableUrl. rewrite Hparams. cbn [bind]. unfold nonEmpty.
  destruct (String.eqb (userName bracket) ""); cbn [negb];
    unfold searchParamsToString; cbn [map fst snd String.concat];
    rewrite (urlencode_base64url token Halpha);
    change (urlencode "b") with "b"%string;
    try change (urlencode "name") with "name"%string.
  - rewrite append_empty_r. reflexivity.
  - reflexivity.
Qed.

Example generateShareableUrl_sample :
  generateShareableUrl (Some "https://bracket.build"%string)
    (mkBracketState (afc pickedBracket) (nfc pickedBracket) (superBowl pickedBracket)
       "Ann & Bob" "My Bracket" true)
  = Ok "https://bracket.build/?b=mZmZAQ&name=Ann+%26+Bob"%string.
Proof. reflexivity. Qed.

(** ** Loading a shared bracket *)

Section Loading.

Variable rules : PlayoffRules.

Lemma applied_pickCodes (b : BracketState) :
  freshUndecided rules -> validBracket rules b ->
  exists applied,
    applyPicksToFreshBracket rules (pickCodes b) (userName b) = Ok applied /\
    (forall s, validSlot s ->
       exists m r, matchupAt b s = Some m /\ matchupAt applied s = Some r /\
                   samePicks r m) /\
    winnerCodes applied = winnerCodes b.
Proof.
  intros Hfresh Hvalid.
  destruct (applyPicks_rounds rules (pickCodes b) (userName b) (valid_seeded rules b Hvalid))
    as (applied & Hok & Ha & Hn & Had & Hnd & Hac & Hnc & Hsb & _).
  exists applied. split; [exact Hok|].
  assert (Hsame : forall s, validSlot s ->
            exists m r, matchupAt b s = Some m /\ matchupAt applied s = Some r /\
                        samePicks r m).
  { intros s Hv.
    apply (slots_restored rules b applied Hfresh Hvalid); try assumption;
      intros [|]; assumption. }
  split; [exact Hsame|].
  rewrite !winnerCodes_ok. f_equal. apply pickCodes_ext.
  intros s Hv.
  destruct (Hsame s Hv) as (m & r & -> & -> & Hs).
  unfold winnerCode. rewrite (samePicks_code r m Hs). reflexivity.
Qed.

Lemma token_nonEmpty (token : list ascii) :
  length token = 6%nat -> nonEmpty (string_of_list_ascii token) = true.
Proof.
  destruct token as [|c rest]; [discriminate|]. reflexivity.
Qed.

(** X10.  Sharing and loading: for a valid bracket whose owner name is not
    empty, the state computed from the search parameters that
    [generateShareableUrl] serializes is flagged as shared, names the
    owner, sets no view mode and holds a bracket in which each of the 13
    matchups has the same home team, the same away team and the same
    winner as in the bracket shared, hence the same 13 winner codes. *)
Theorem share_then_load (b : BracketState) :
  freshUndecided rules ->
  validBracket rules b ->
  userName b <> EmptyString ->
  exists params loaded,
    shareParams b = Ok params /\
    isSharedBracket (useUrlState rules params) = true /\
    sharedBracketOwner (useUrlState rules params) = Some (userName b) /\
    initialViewMode (useUrlState rules params) = None /\
    sharedBracket (useUrlState rules params) = Some loaded /\
    (forall s, validSlot s ->
       exists m r,
         matchupAt b s = Some m /\ matchupAt loaded s = Some r /\
         homeTeam r = homeTeam m /\ awayTeam r = awayTeam m /\
         winner r = winner m) /\
    winnerCodes loaded = winnerCodes b.
Proof.
  intros Hfresh Hvalid Hname.
  destruct (shareParams_ok b) as (token & _ & _ & Hlen & Hdec & Hparams).
  destruct (applied_pickCodes b Hfresh Hvalid) as (applied & Hok & Hsame & Hcodes).
  apply String.eqb_neq in Hname.
  assert (Hne : nonEmpty (userName b) = true) by (unfold nonEmpty; rewrite Hname; reflexivity).
  rewrite Hne in Hparams.
  eexists. exists applied. split; [exact Hparams|].
  unfold useUrlState, parseUrlParams.
  cbn [searchParamsGet String.eqb Ascii.eqb Bool.eqb
       UrlParams.encodedBracket UrlParams.userName UrlParams.viewMode
       isSharedBracket sharedBracketOwner initialViewMode sharedBracket truthy].
  rewrite (token_nonEmpty token Hlen).
  rewrite list_ascii_of_string_of_list_ascii, Hdec. cbn [bind ownerOrSomeone].
  rewrite Hne, Hok. cbn [orNull].
  split; [reflexivity|]. split; [reflexivity|]. split; [reflexivity|].
  split; [reflexivity|]. split; [exact Hsame | exact Hcodes].
Qed.

(** X11.  The state is flagged as shared exactly when the parameter [b] is
    present and not empty, and an error of decoding is caught: the shared
    bracket is null exactly when the state is not flagged as shared or
    [atob] refuses the token, so that a malformed link is a shared view
    without a bracket. *)
Theorem useUrlState_shared (searchParams : URLSearchParams) :
  (forall owner, seeded (createInitialBracket rules owner)) ->
  (isSharedBracket (useUrlState rules searchParams) = true <->
   exists t, searchParamsGet searchParams "b" = Some t /\ t <> EmptyString) /\
  (sharedBracket (useUrlState rules searchParams) = None <->
   isSharedBracket (useUrlState rules searchParams) = false \/
   exists t, searchParamsGet searchParams "b" = Some t /\
             atob (fromBase64Url (list_ascii_of_string t)) = Throw InvalidCharacterError).
Proof.
  intros Hseed. unfold useUrlState, parseUrlParams.
  cbn [UrlParams.encodedBracket UrlParams.userName UrlParams.viewMode
       isSharedBracket sharedBracket].
  destruct (searchParamsGet searchParams "b") as [t|]; cbn [truthy].
  2:{ split; [split; [discriminate | intros (t & H & _); discriminate]|].
      split; [intros _; left; reflexivity | reflexivity]. }
  unfold nonEmpty. destruct (String.eqb t "") eqn:Et; cbn [negb].
  { apply String.eqb_eq in Et.
    split; [split; [discriminate | intros (t' & H & Hne); congruence]|].
    split; [intros _; left; reflexivity | reflexivity]. }
  apply String.eqb_neq in Et.
  split; [split; [intros _; exists t; split; [reflexivity | exact Et] | reflexivity]|].
  unfold decodeBracketPicks.
  destruct (atob (fromBase64Url (list_ascii_of_string t))) as [binary|e] eqn:E;
    cbn [bind].
  - set (codes := extractCodes _ _ _).
    destruct (applyPicks_rounds rules codes
                (ownerOrSomeone (searchParamsGet searchParams "name"))
                (Hseed _)) as (applied & Hok & _).
    rewrite Hok. cbn [orNull].
    split; [discriminate|].
    intros [H|(t' & Ht & H)]; [discriminate|].
    injection Ht as <-. rewrite E in H. discriminate.
  - cbn [orNull]. split; [|reflexivity]. intros _. right.
    exists t. split; [reflexivity|].
    rewrite E. f_equal. apply (atob_error _ _ E).
Qed.

Lemma short_bytes_superBowl_code (token : list ascii) (bytes : list Z) :
  atob (fromBase64Url token) = Ok bytes -> (length bytes < 4)%nat ->
  exists codes,
    decodeBracketPicks token = Ok codes /\ codeAt codes SuperBowlSlot = Some 0.
Proof.
  intros Hatob Hlen. eexists. split; [apply decodeBracketPicks_atob; exact Hatob|].
  pose proof (unpackBytes_short (map toUint8 bytes) (toUint8_isByte bytes)) as Hp.
  rewrite length_map in Hp. specialize (Hp Hlen).
  set (packed := unpackBytes (map toUint8 bytes)) in *.
  assert (Hpow : 2 ^ (8 * Z.of_nat (length bytes)) <= 2 ^ 24)
    by (apply Z.pow_le_mono_r; lia).
  change (2 ^ 24) with 16777216 in Hpow.
  unfold codeAt, at_. cbn [slotIndex].
  rewrite (nth_error_nth' _ 0) by (rewrite extractCodes_length; lia).
  rewrite extractCodes_nth by lia.
  rewrite code_at by (change (2 ^ 31) with 2147483648; lia).
  rewrite Z.div_small; [reflexivity|].
  change (4 ^ (0 + Z.of_nat 12)) with 16777216. lia.
Qed.

(** X12.  A link whose token decodes to fewer than 4 bytes is loaded all
    the same, and the bracket it gives has no Super Bowl winner and is not
    complete (with [isBracketComplete] true exactly when the 13 matchups
    have a winner). *)
Theorem useUrlState_truncated (searchParams : URLSearchParams) (t : string)
    (bytes : list Z) :
  freshUndecided rules ->
  (forall owner, seeded (createInitialBracket rules owner)) ->
  (forall b, isBracketComplete rules b = true <->
             forall s, validSlot s -> hasWinner (matchupAt b s) = true) ->
  searchParamsGet searchParams "b" = Some t ->
  t <> EmptyString ->
  atob (fromBase64Url (list_ascii_of_string t)) = Ok bytes ->
  (length bytes < 4)%nat ->
  exists loaded,
    sharedBracket (useUrlState rules searchParams) = Some loaded /\
    winnerOf (superBowl loaded) = None /\
    isComplete loaded = false.
Proof.
  intros Hfresh Hseed Hspec Hb Hne Hatob Hlen.
  destruct (short_bytes_superBowl_code _ bytes Hatob Hlen) as (codes & Hdec & Hcode).
  destruct (applied_zero_code rules codes
              (ownerOrSomeone (searchParamsGet searchParams "name"))
              SuperBowlSlot Hfresh (Hseed _) Hspec I Hcode)
    as (applied & Hok & Hwin & Hflag).
  exists applied. split; [|split; [exact Hwin | exact Hflag]].
  unfold useUrlState, parseUrlParams.
  cbn [UrlParams.encodedBracket UrlParams.userName sharedBracket].
  rewrite Hb. apply String.eqb_neq in Hne. unfold nonEmpty at 1. rewrite Hne.
  cbn [negb]. rewrite Hdec. cbn [bind]. rewrite Hok. reflexivity.
Qed.

End Loading.

Lemma share_then_load_witness :
  exists params loaded,
    shareParams pickedBracket = Ok params /\
    isSharedBracket (useUrlState specRules params) = true /\
    sharedBracketOwner (useUrlState specRules params) = Some "Ann"%string /\
    initialViewMode (useUrlState specRules params) = None /\
    sharedBracket (useUrlState specRules params) = Some loaded /\
    (forall s, validSlot s ->
       exists m r,
         matchupAt pickedBracket s = Some m /\ matchupAt loaded s = Some r /\
         homeTeam r = homeTeam m /\ awayTeam r = awayTeam m /\
         winner r = winner m) /\
    winnerCodes loaded = winnerCodes pickedBracket.
Proof.
  apply (share_then_load specRules pickedBracket).
  - exact specRules_freshUndecided.
  - exact pickedBracket_valid.
  - discriminate.
Defined.

Lemma useUrlState_shared_witness :
  isSharedBracket (useUrlState specRules [("b", "A"); ("view", "live")]%string) = true /\
  sharedBracket (useUrlState specRules [("b", "A"); ("view", "live")]%string) = None /\
  sharedBracket (useUrlState specRules [("name", "Ann")]%string) = None.
Proof.
  destruct (useUrlState_shared specRules [("b", "A"); ("view", "live")]%string
              specRules_seeded) as (Hflag & Hnull).
  destruct (useUrlState_shared specRules [("name", "Ann")]%string
              specRules_seeded) as (_ & Hnull').
  split; [|split].
  - apply Hflag. exists "A"%string. split; [reflexivity | discriminate].
  - apply Hnull. right. exists "A"%string. split; reflexivity.
  - apply Hnull'. left. reflexivity.
Defined.

Lemma useUrlState_truncated_witness :
  exists loaded,
    sharedBracket (useUrlState specRules [("b", "mZmZ")]%string) = Some loaded /\
    winnerOf (superBowl loaded) = None /\
    isComplete loaded = false.
Proof.
  apply (useUrlState_truncated specRules [("b", "mZmZ")]%string "mZmZ" [153; 153; 153]).
  - exact specRules_freshUndecided.
  - exact specRules_seeded.
  - exact specRules_isBracketComplete.
  - reflexivity.
  - discriminate.
  - reflexivity.
  - simpl. lia.
Defined.

(** ** Looking up a game by the id of its matchup *)

Lemma hasId_spec (key : string) (m : Matchup) :
  hasId key m = true <-> matchupId m = Some key.
Proof.
  unfold hasId. destruct (matchupId m) as [i|].
  - rewrite String.eqb_eq. split; congruence.
  - split; discriminate.
Qed.

Lemma find_none_iff {A : Type} (f : A -> bool) (l : list A) :
  find f l = None <-> forall x, In x l -> f x = false.
Proof.
  split; [apply find_none|].
  induction l as [|x rest IH]; intros H; [reflexivity|].
  cbn [find]. rewrite (H x (or_introl eq_refl)).
  apply IH. intros y Hy. apply H. right. exact Hy.
Qed.

Ltac find_cases :=
  repeat match goal with
         | H : context [match find ?f ?l with _ => _ end] |- _ =>
             let E := fresh "E" in destruct (find f l) eqn:E
         | H : context [match championship ?c with _ => _ end] |- _ =>
             let E := fresh "E" in destruct (championship c) eqn:E
         | H : context [match superBowl ?b with _ => _ end] |- _ =>
             let E := fresh "E" in destruct (superBowl b) eqn:E
         | H : context [if hasId ?k ?m then _ else _] |- _ =>
             let E := fresh "E" in destruct (hasId k m) eqn:E
         end.

Lemma findInBracket_sound (b : BracketState) (key : string)
    (m : Matchup) (c : GameConference) (r : GameRound) :
  findInBracket b key = Some (m, c, r) ->
  hasId key m = true /\ In m (roundMatchups b c r).
Proof.
  unfold findInBracket. intros H. find_cases;
    try discriminate; injection H as <- <- <-; cbn [roundMatchups defined flat_map app];
    repeat match goal with
           | E : find _ _ = Some _ |- _ => apply find_some in E; destruct E
           | E : championship _ = Some _ |- _ => rewrite E
           | E : superBowl _ = Some _ |- _ => rewrite E
           end;
    split; try assumption; left; reflexivity.
Qed.

Lemma findInBracket_none (b : BracketState) (key : string) :
  findInBracket b key = None <-> forall m, In m (allMatchups b) -> hasId key m = false.
Proof.
  unfold allMatchups. split.
  - unfold findInBracket. intros H. find_cases; try discriminate;
      intros x Hx;
      repeat (apply in_app_or in Hx; destruct Hx as [Hx|Hx];
              [match goal with
               | Ef : find _ ?l = None, Hin : In _ ?l |- _ =>
                   exact (find_none _ _ Ef _ Hin)
               end|]);
      cbn [defined flat_map app] in Hx;
      repeat (destruct Hx as [<-|Hx]; [assumption|]);
      destruct Hx.
  - intros H. unfold findInBracket.
    assert (H1 : find (hasId key) (wildCard (afc b)) = None).
    { apply find_none_iff. intros x Hx. apply H. apply in_or_app. left. exact Hx. }
    assert (H2 : find (hasId key) (wildCard (nfc b)) = None).
    { apply find_none_iff. intros x Hx. apply H.
      apply in_or_app. right. apply in_or_app. left. exact Hx. }
    assert (H3 : find (hasId key) (divisional (afc b)) = None).
    { apply find_none_iff. intros x Hx. apply H.
      do 2 (apply in_or_app; right). apply in_or_app. left. exact Hx. }
    assert (H4 : find (hasId key) (divisional (nfc b)) = None).
    { apply find_none_iff. intros x Hx. apply H.
      do 3 (apply in_or_app; right). apply in_or_app. left. exact Hx. }
    rewrite H1, H2, H3, H4.
    assert (H5 : forall m, In m (defined [championship (afc b); championship (nfc b);
                                          superBowl b]) -> hasId key m = false).
    { intros m Hm. apply H. do 4 (apply in_or_app; right). exact Hm. }
    cbn [defined flat_map] in H5.
    destruct (championship (afc b)) as [ca|]; destruct (championship (nfc b)) as [cn|];
      destruct (superBowl b) as [sb|]; cbn [app] in H5;
      repeat match goal with
             | |- context [hasId key ?m] =>
                 rewrite (H5 m) by (cbn; tauto)
             end; reflexivity.
Qed.

(** X13.  A game found for an id is a game of that id: its matchup carries
    the id asked for, and it is either one of the live games or a matchup
    of the bracket, in the round and conference that label it, with the
    live result recorded for this id. *)
Theorem findGameByMatchupId_sound (liveGames : list LiveGame.t)
    (getLiveResultForMatchup : string -> option LiveResult)
    (b : BracketState) (key : string) (g : LiveGame.t) :
  findGameByMatchupId liveGames getLiveResultForMatchup b key = Some g ->
  matchupId (LiveGame.matchup g) = Some key /\
  (In g liveGames \/
   (In (LiveGame.matchup g) (roundMatchups b (LiveGame.conference g) (LiveGame.round g)) /\
    getLiveResultForMatchup key = Some (LiveGame.liveResult g))).
Proof.
  unfold findGameByMatchupId. intros H.
  destruct (find _ liveGames) as [lg|] eqn:El.
  - injection H as <-. apply find_some in El. destruct El as [Hin Hid].
    split; [apply hasId_spec; exact Hid | left; exact Hin].
  - destruct (findInBracket b key) as [[[m c] r]|] eqn:Eb; [|discriminate].
    destruct (getLiveResultForMatchup key) as [lr|] eqn:Er; [|discriminate].
    injection H as <-. cbn [LiveGame.matchup LiveGame.conference LiveGame.round
                           LiveGame.liveResult].
    destruct (findInBracket_sound b key m c r Eb) as [Hid Hin].
    split; [apply hasId_spec; exact Hid | right; split; [exact Hin | reflexivity]].
Qed.

(** X14.  No game is found for an id exactly when no live game has a
    matchup of this id and either no matchup of the bracket has this id or
    no live result is recorded for it; a live game of this id is returned
    before the bracket is searched. *)
Theorem findGameByMatchupId_none (liveGames : list LiveGame.t)
    (getLiveResultForMatchup : string -> option LiveResult)
    (b : BracketState) (key : string) :
  (findGameByMatchupId liveGames getLiveResultForMatchup b key = None <->
   (forall g, In g liveGames -> matchupId (LiveGame.matchup g) <> Some key) /\
   ((forall m, In m (allMatchups b) -> matchupId m <> Some key) \/
    getLiveResultForMatchup key = None)) /\
  (forall g, In g liveGames -> matchupId (LiveGame.matchup g) = Some key ->
     exists g', In g' liveGames /\
                findGameByMatchupId liveGames getLiveResultForMatchup b key = Some g').
Proof.
  assert (Hneg : forall m, hasId key m = false <-> matchupId m <> Some key).
  { intros m. rewrite <- hasId_spec. destruct (hasId key m); split;
      congruence. }
  split.
  - unfold findGameByMatchupId. split.
    + intros H. destruct (find _ liveGames) as [lg|] eqn:El; [discriminate|].
      split.
      * intros g Hg. apply Hneg. apply (find_none _ _ El g Hg).
      * destruct (findInBracket b key) as [[[m c] r]|] eqn:Eb.
        -- right. destruct (getLiveResultForMatchup key); [discriminate | reflexivity].
        -- left. intros m Hm. apply Hneg.
           apply (proj1 (findInBracket_none b key) Eb m Hm).
    + intros [Hlive Hrest].
      assert (El : find (fun g => hasId key (LiveGame.matchup g)) liveGames = None).
      { apply find_none_iff. intros g Hg. apply Hneg. apply Hlive. exact Hg. }
      rewrite El. destruct Hrest as [Hb|Hr].
      * assert (Eb : findInBracket b key = None).
        { apply findInBracket_none. intros m Hm. apply Hneg. apply Hb. exact Hm. }
        rewrite Eb. reflexivity.
      * rewrite Hr. destruct (findInBracket b key) as [[[m c] r]|]; reflexivity.
  - intros g Hg Hid. unfold findGameByMatchupId.
    destruct (find _ liveGames) as [lg|] eqn:El.
    + exists lg. split; [apply (find_some _ _ El) | reflexivity].
    + exfalso. pose proof (find_none _ _ El g Hg) as Hf. cbv beta in Hf.
      apply Hneg in Hf. contradiction.
Qed.

Lemma findGameByMatchupId_sound_witness :
  exists g,
    findGameByMatchupId [] (fun _ => Some sampleLive) pickedBracket "afc-div-1" = Some g /\
    matchupId (LiveGame.matchup g) = Some "afc-div-1"%string /\
    (In g [] \/
     (In (LiveGame.matchup g)
         (roundMatchups pickedBracket (LiveGame.conference g) (LiveGame.round g)) /\
      Some sampleLive = Some (LiveGame.liveResult g))).
Proof.
  eexists. split; [vm_compute; reflexivity|].
  apply (findGameByMatchupId_sound [] (fun _ => Some sampleLive) pickedBracket "afc-div-1").
  vm_compute. reflexivity.
Defined.

Lemma findGameByMatchupId_none_witness :
  findGameByMatchupId [] (fun _ => None) pickedBracket "afc-div-1" = None /\
  findGameByMatchupId [] (fun _ => Some sampleLive) pickedBracket "afc-div-3" = None.
Proof.
  split.
  - apply (proj1 (findGameByMatchupId_none [] (fun _ => None) pickedBracket "afc-div-1")).
    split; [intros g []|]. right. reflexivity.
  - apply (proj1 (findGameByMatchupId_none [] (fun _ => Some sampleLive) pickedBracket
                    "afc-div-3")).
    split; [intros g []|]. left. intros m Hm. vm_compute in Hm.
    repeat (destruct Hm as [<-|Hm]; [discriminate|]). destruct Hm.
Defined.

(** ** Scores and clicks *)

(** X15.  When the two teams of the Super Bowl have different ids and the
    live result is played by these two teams, in either order of home and
    away, each card is given the score that the live result records for
    its own team as soon as the game is in progress or complete; while it
    is neither, and when there is no live result, no score is given to
    either card. *)
Theorem superBowl_scores (r : LiveResult) (h a : Team) :
  teamId h <> teamId a ->
  (homeTeamId r = teamId h /\ awayTeamId r = teamId a) \/
  (homeTeamId r = teamId a /\ awayTeamId r = teamId h) ->
  (isInProgress r = true \/ gameIsComplete r = true ->
   homeCardScore (Some r) (Some h) = Some (scoreOf r (teamId h)) /\
   awayCardScore (Some r) (Some a) = Some (scoreOf r (teamId a))) /\
  (isInProgress r = false -> gameIsComplete r = false ->
   homeCardScore (Some r) (Some h) = None /\
   awayCardScore (Some r) (Some a) = None) /\
  (homeCardScore None (Some h) = None /\ awayCardScore None (Some a) = None).
Proof.
  intros Hd Hr.
  assert (Hne : String.eqb (teamId a) (teamId h) = false)
    by (apply String.eqb_neq; congruence).
  assert (Hne' : String.eqb (teamId h) (teamId a) = false)
    by (apply String.eqb_neq; congruence).
  split; [|split].
  - intros Hdata.
    assert (Hshow : hasGameData (Some r) = true).
    { cbn [hasGameData]. destruct Hdata as [-> | ->];
        [reflexivity | apply orb_true_r]. }
    unfold homeCardScore, awayCardScore. rewrite Hshow.
    unfold homeScoreLocal, awayScoreLocal, scoreOf.
    cbn [option_map optStringEqb].
    destruct Hr as [[Eh Ea]|[Eh Ea]]; rewrite Eh, Ea.
    + rewrite !String.eqb_refl, Hne'. split; reflexivity.
    + rewrite Hne, Hne', String.eqb_refl. split; reflexivity.
  - intros Hp Hc. unfold homeCardScore, awayCardScore.
    cbn [hasGameData]. rewrite Hp, Hc. split; reflexivity.
  - split; reflexivity.
Qed.

Lemma superBowl_scores_witness :
  (homeCardScore (Some sampleLive) (Some (seededTeam AFC 1)) = Some 17 /\
   awayCardScore (Some sampleLive) (Some (seededTeam NFC 1)) = Some 24) /\
  (homeCardScore (Some scheduledLive) (Some (seededTeam AFC 1)) = None /\
   awayCardScore (Some scheduledLive) (Some (seededTeam NFC 1)) = None).
Proof.
  destruct (superBowl_scores sampleLive (seededTeam AFC 1) (seededTeam NFC 1))
    as (Hshown & _).
  - apply String.eqb_neq. reflexivity.
  - right. split; reflexivity.
  - destruct (superBowl_scores scheduledLive (seededTeam AFC 1) (seededTeam NFC 1))
      as (_ & Hhidden & _).
    + apply String.eqb_neq. reflexivity.
    + right. split; reflexivity.
    + split; [apply Hshown; right; reflexivity | apply Hhidden; reflexivity].
Defined.

Lemma winnerIs_sameTeamId (m : MatchupObject) (t : Team) :
  winnerIs m t
  = match winner (asMatchup m) with Some w => sameTeamId w (Some t) | None => false end.
Proof. unfold winnerIs. cbn. destruct (objWinner m); reflexivity. Qed.

(** X16.  A click on either card calls nothing when one of the two team
    slots is null, and a click on a card whose own slot holds no team
    calls nothing.  On a matchup with its two teams, of different ids,
    the card whose click clears the pick is the card of the team that the
    codec encodes as the winner: the home card exactly when the winner
    code is 1, the away card exactly when it is 2; the click on any other
    card, and every click when no clearing handler is given, selects the
    team of that card.  A slot that is undefined, not null, does not
    disable the other card: its click still calls a handler. *)
Theorem click_toggles_pick (m : MatchupObject) :
  (objHome m = JsNull \/ objAway m = JsNull ->
   forall given, clickHome given m = NoDispatch /\ clickAway given m = NoDispatch) /\
  ((forall t, objHome m <> JsSome t) -> forall given, clickHome given m = NoDispatch) /\
  ((forall t, objAway m <> JsSome t) -> forall given, clickAway given m = NoDispatch) /\
  (forall h a, objHome m = JsSome h -> objAway m = JsSome a -> teamId h <> teamId a ->
     clickHome true m
     = (if winnerCode (Some (asMatchup m)) =? 1 then ClearWinner (objId m)
        else SelectWinner (objId m) h) /\
     clickAway true m
     = (if winnerCode (Some (asMatchup m)) =? 2 then ClearWinner (objId m)
        else SelectWinner (objId m) a) /\
     clickHome false m = SelectWinner (objId m) h /\
     clickAway false m = SelectWinner (objId m) a) /\
  (forall a, objHome m = JsUndefined -> objAway m = JsSome a ->
     forall given, clickAway given m <> NoDispatch) /\
  (forall h, objHome m = JsSome h -> objAway m = JsUndefined ->
     forall given, clickHome given m <> NoDispatch).
Proof.
  split; [|split; [|split; [|split; [|split]]]].
  - intros H given. unfold clickHome, clickAway, handleSelect, canSelect.
    destruct H as [H|H]; rewrite H;
      [destruct (objAway m) | destruct (objHome m)]; split; reflexivity.
  - intros H given. unfold clickHome.
    destruct (objHome m) as [| |t]; [reflexivity | reflexivity |].
    exfalso. apply (H t). reflexivity.
  - intros H given. unfold clickAway.
    destruct (objAway m) as [| |t]; [reflexivity | reflexivity |].
    exfalso. apply (H t). reflexivity.
  - intros h a Hh Ha Hd.
    unfold clickHome, clickAway. rewrite Hh, Ha.
    unfold handleSelect, canSelect. rewrite Hh, Ha.
    cbn [notNull andb negb].
    rewrite !winnerIs_sameTeamId.
    unfold winnerCode, getWinnerCode, asMatchup.
    cbn [winner homeTeam awayTeam].
    rewrite Hh, Ha. cbn [truthyTeam].
    rewrite !andb_false_r, !andb_true_r.
    destruct (truthyTeam (objWinner m)) as [w|]; [|repeat split].
    destruct (sameTeamId w (Some h)) eqn:Eh.
    + assert (Ea : sameTeamId w (Some a) = false).
      { destruct (sameTeamId w (Some a)) eqn:Ea; [|reflexivity].
        exfalso. cbn [sameTeamId] in Eh, Ea.
        apply String.eqb_eq in Eh, Ea. apply Hd. congruence. }
      rewrite Ea. repeat split.
    + destruct (sameTeamId w (Some a)); repeat split.
  - intros a Hh Ha given. unfold clickAway. rewrite Ha.
    unfold handleSelect, canSelect. rewrite Hh, Ha. cbn [notNull andb negb].
    destruct (winnerIs m a && given); discriminate.
  - intros h Hh Ha given. unfold clickHome. rewrite Hh.
    unfold handleSelect, canSelect. rewrite Hh, Ha. cbn [notNull andb negb].
    destruct (winnerIs m h && given); discriminate.
Qed.

Lemma click_toggles_pick_witness :
  clickHome true (objGame27 (JsSome afc7)) = SelectWinner None afc2 /\
  clickAway true (objGame27 (JsSome afc7)) = ClearWinner None /\
  clickHome true (mkMatchupObject None (JsSome afc2) JsNull JsNull) = NoDispatch /\
  clickHome true halfFilled = NoDispatch /\
  clickAway true halfFilled <> NoDispatch.
Proof.
  destruct (click_toggles_pick (objGame27 (JsSome afc7))) as (_ & _ & _ & H & _).
  destruct (H afc2 afc7) as (Hhome & Haway & _).
  - reflexivity.
  - reflexivity.
  - apply String.eqb_neq. reflexivity.
  - split; [exact Hhome|]. split; [exact Haway|].
    split.
    { apply (proj1 (click_toggles_pick (mkMatchupObject None (JsSome afc2) JsNull JsNull))).
      right. reflexivity. }
    split.
    { apply (proj1 (proj2 (click_toggles_pick halfFilled))). intros t. discriminate. }
    apply (proj1 (proj2 (proj2 (proj2 (proj2 (click_toggles_pick halfFilled))))) afc7);
      reflexivity.
Defined.

(** ** The label of a quarter *)

Lemma numberToString_inj (a b : Z) : numberToString a = numberToString b -> a = b.
Proof.
  unfold numberToString. intros H.
  apply (f_equal NilEmpty.int_of_string) in H.
  rewrite !NilEmpty.isi in H. injection H as H.
  apply (f_equal Z.of_int) in H. rewrite !DecimalZ.of_to in H. exact H.
Qed.

Lemma numberToString_nonempty (a : Z) : numberToString a <> EmptyString.
Proof.
  intros H. assert (Ha : a = 0).
  { unfold numberToString in H.
    apply (f_equal NilEmpty.int_of_string) in H. rewrite NilEmpty.isi in H.
    cbn in H. injection H as H.
    apply (f_equal Z.of_int) in H. rewrite DecimalZ.of_to in H. exact H. }
  subst a. discriminate H.
Qed.

(** X17.  Among the safe integers, distinct quarters have distinct
    labels.  The fifth quarter is labelled [OT] and the quarter 4 + n,
    from n = 2 on, [OT] followed by n, so that the label [OT1] is never
    produced; a quarter below 1 is labelled [Q] followed by its number. *)
Theorem formatQuarter_injective (q1 q2 : Z) :
  isSafeInteger q1 -> isSafeInteger q2 ->
  (q1 <> q2 -> formatQuarter q1 <> formatQuarter q2) /\
  (5 < q1 -> formatQuarter q1 = ("OT" ++ numberToString (q1 - 4))%string) /\
  (q1 < 1 -> formatQuarter q1 = ("Q" ++ numberToString q1)%string) /\
  formatQuarter q1 <> "OT1"%string.
Proof.
  intros _ _.
  assert (Hott : forall q, 5 < q -> formatQuarter q = ("OT" ++ numberToString (q - 4))%string).
  { intros q Hq. unfold formatQuarter.
    repeat match goal with
           | |- context [?x =? ?y] => destruct (Z.eqb_spec x y); [lia|]
           end.
    destruct (Z.leb_spec 5 q); [|lia]. destruct (Z.ltb_spec 5 q); [|lia]. reflexivity. }
  assert (Hq : forall q, q < 1 -> formatQuarter q = ("Q" ++ numberToString q)%string).
  { intros q Hlt. unfold formatQuarter.
    repeat match goal with
           | |- context [?x =? ?y] => destruct (Z.eqb_spec x y); [lia|]
           end.
    destruct (Z.leb_spec 5 q); [lia|]. reflexivity. }
  assert (Hcases : forall q,
            (q < 1 /\ formatQuarter q = ("Q" ++ numberToString q)%string) \/
            (q = 1 /\ formatQuarter q = "1st"%string) \/
            (q = 2 /\ formatQuarter q = "2nd"%string) \/
            (q = 3 /\ formatQuarter q = "3rd"%string) \/
            (q = 4 /\ formatQuarter q = "4th"%string) \/
            (q = 5 /\ formatQuarter q = "OT"%string) \/
            (5 < q /\ formatQuarter q = ("OT" ++ numberToString (q - 4))%string)).
  { intros q.
    assert (H : q < 1 \/ q = 1 \/ q = 2 \/ q = 3 \/ q = 4 \/ q = 5 \/ 5 < q) by lia.
    destruct H as [H|[H|[H|[H|[H|[H|H]]]]]].
    - left. split; [exact H | apply Hq; exact H].
    - right. left. subst. split; reflexivity.
    - do 2 right. left. subst. split; reflexivity.
    - do 3 right. left. subst. split; reflexivity.
    - do 4 right. left. subst. split; reflexivity.
    - do 5 right. left. subst. split; reflexivity.
    - do 6 right. split; [exact H | apply Hott; exact H]. }
  split; [|split; [exact (Hott q1) | split; [exact (Hq q1)|]]].
  - intros Hneq H. apply Hneq.
    destruct (Hcases q1) as [[H1 E1]|[[H1 E1]|[[H1 E1]|[[H1 E1]|[[H1 E1]|[[H1 E1]|[H1 E1]]]]]]];
    destruct (Hcases q2) as [[H2 E2]|[[H2 E2]|[[H2 E2]|[[H2 E2]|[[H2 E2]|[[H2 E2]|[H2 E2]]]]]]];
      rewrite E1, E2 in H; cbn [String.append] in H;
      try discriminate H; try lia.
    + injection H as H. apply numberToString_inj. exact H.
    + injection H as H. symmetry in H. apply numberToString_nonempty in H. contradiction.
    + injection H as H. apply numberToString_nonempty in H. contradiction.
    + injection H as H. apply numberToString_inj in H. lia.
  - intros H.
    destruct (Hcases q1) as [[H1 E1]|[[H1 E1]|[[H1 E1]|[[H1 E1]|[[H1 E1]|[[H1 E1]|[H1 E1]]]]]]];
      rewrite E1 in H; cbn [String.append] in H; try discriminate H.
    injection H as H.
    change "1"%string with (numberToString 1) in H.
    apply numberToString_inj in H. lia.
Qed.

Lemma formatQuarter_injective_witness :
  formatQuarter 5 <> formatQuarter 6 /\
  formatQuarter 6 = "OT2"%string /\
  formatQuarter (-1) = "Q-1"%string.
Proof.
  assert (S5 : isSafeInteger 5) by (unfold isSafeInteger; simpl; lia).
  assert (S6 : isSafeInteger 6) by (unfold isSafeInteger; simpl; lia).
  assert (Sm : isSafeInteger (-1)) by (unfold isSafeInteger; simpl; lia).
  destruct (formatQuarter_injective 5 6 S5 S6) as (Hinj & _).
  destruct (formatQuarter_injective 6 6 S6 S6) as (_ & Hot & _).
  destruct (formatQuarter_injective (-1) (-1) Sm Sm) as (_ & _ & Hq & _).
  split; [apply Hinj; lia|]. split; [apply Hot; lia | apply Hq; lia].
Defined.

(** ** The shape of a token *)

Lemma stdChar_toUrl (c : ascii) :
  stdChar (subChar "/" "_" (subChar "+" "-" c)) = stdChar c.
Proof.
  apply Ascii.eqb_eq. change (stdCharStable c = true).
  destruct c as [[|] [|] [|] [|] [|] [|] [|] [|]]; vm_compute; reflexivity.
Qed.

(** X18.  Decoding does not tell the two alphabets apart: a token written
    with [+] and [/] decodes, or fails, exactly as the same token
    written with [-] and [_]. *)
Theorem decodeBracketPicks_either_alphabet (token : list ascii) :
  decodeBracketPicks (replaceAll "/" "_" (replaceAll "+" "-" token))
  = decodeBracketPicks token.
Proof.
  unfold decodeBracketPicks. rewrite !fromBase64Url_map.
  unfold replaceAll. rewrite !map_map.
  rewrite (map_ext _ stdChar stdChar_toUrl). reflexivity.
Qed.

Lemma superBowl_byte (c0 c1 c2 c3 c4 c5 c6 c7 c8 c9 c10 c11 c12 : Z) :
  Forall isCode [c0; c1; c2; c3; c4; c5; c6; c7; c8; c9; c10; c11; c12] ->
  (packValue [c0; c1; c2; c3; c4; c5; c6; c7; c8; c9; c10; c11; c12] / 2 ^ 24) mod 256
  = c12.
Proof.
  intros H. unfold isCode in H.
  repeat match goal with
         | H : Forall _ (_ :: _) |- _ => inversion H; clear H; subst
         end.
  cbn [packValue]. change (2 ^ 24) with 16777216.
  Z.div_mod_to_equations. lia.
Qed.

(** X19.  The token shows the Super Bowl pick: its fifth character is
    always [A] and its sixth is [A] without a Super Bowl pick, [Q] when
    the home team is picked and [g] when the away team is picked. *)
Theorem token_superBowl_char (bracket : BracketState) :
  exists token code,
    encodeBracketPicks bracket = Ok token /\
    getWinnerCode (superBowl bracket) = Ok code /\
    nth_error token 4 = Some "A"%char /\
    nth_error token 5 = Some (superBowlChar code).
Proof.
  exists (toBase64Url (base64 (packedBytes (packCodes (pickCodes bracket))))),
         (winnerCode (superBowl bracket)).
  split; [apply encodeBracketPicks_ok|].
  split; [apply getWinnerCode_ok|].
  destruct (packCodes_pickCodes bracket) as [Hv Hp].
  assert (Hp31 : 0 <= packCodes (pickCodes bracket) < 2 ^ 31).
  { rewrite Hv. change (2 ^ 26) with 67108864 in Hp.
    change (2 ^ 31) with 2147483648. lia. }
  rewrite packedBytes_small by assumption.
  assert (Hbyte : forall x, isByte (x mod 256)).
  { intros x. unfold isByte. apply Z.mod_pos_bound. lia. }
  rewrite toBase64Url_4bytes by apply Hbyte.
  rewrite Hv.
  pose proof (pickCodes_isCode bracket) as Hcodes.
  unfold pickCodes, getAllMatchupsOrdered in *. cbn [map] in *.
  rewrite superBowl_byte by exact Hcodes.
  cbn [sextetsOf4 map nth_error].
  pose proof (getWinnerCode_ok (superBowl bracket)) as [_ Hr].
  assert (Hc : winnerCode (superBowl bracket) = 0 \/ winnerCode (superBowl bracket) = 1
               \/ winnerCode (superBowl bracket) = 2) by lia.
  destruct Hc as [-> | [-> | ->]]; split; reflexivity.
Qed.
